(** * The memory-server client of the editor extension (mcpClient.ts)

    A shallow embedding of [McpClient]: the line framing of the worker's
    standard output, the correlation of responses with pending requests,
    the per-request timers, and the typed wrappers over [call]. *)

From Stdlib Require Import ZArith Lia List Bool Ascii String Sorted.
From stdpp Require Import base option list gmap.
Import ListNotations.

Local Open Scope Z_scope.

(** ** JavaScript strings

    A string is the sequence of its code units; [ascii] covers the code
    units up to 0xFF, which is all the framing and the JSON syntax look at. *)

Module JsString.

Local Open Scope string_scope.

Definition newline : ascii := "010"%char.

Definition is_empty (s : string) : bool :=
  match s with
  | EmptyString => true
  | String _ _ => false
  end.

(** [s.split('\n')]: the segments between newlines; never the empty list. *)
Fixpoint split (sep : ascii) (s : string) : list string :=
  match s with
  | EmptyString => [EmptyString]
  | String c s' =>
      if Ascii.eqb c sep then EmptyString :: split sep s'
      else match split sep s' with
           | seg :: segs => String c seg :: segs
           | [] => [String c EmptyString]
           end
  end.

(** [Array.prototype.pop]: the last element (undefined on an empty array)
    and the array without it. *)
Definition pop {A : Type} (l : list A) : option A * list A :=
  (List.last (List.map Some l) None, List.removelast l).

(** White space and line terminators of ECMAScript within the code units
    modelled: TAB, LF, VT, FF, CR, SP and NBSP. *)
Definition is_white (c : ascii) : bool :=
  let n := N_of_ascii c in
  ((9 <=? n) && (n <=? 13) || (n =? 32) || (n =? 160))%N.

Fixpoint trimStart (s : string) : string :=
  match s with
  | EmptyString => EmptyString
  | String c s' => if is_white c then trimStart s' else s
  end.

Fixpoint trimEnd (s : string) : string :=
  match s with
  | EmptyString => EmptyString
  | String c s' =>
      let t := trimEnd s' in
      if is_white c && is_empty t then EmptyString else String c t
  end.

Definition trim (s : string) : string := trimEnd (trimStart s).

Fixpoint concat (l : list string) : string :=
  match l with
  | [] => EmptyString
  | s :: l' => s ++ concat l'
  end.

Fixpoint contains (c : ascii) (s : string) : bool :=
  match s with
  | EmptyString => false
  | String d s' => Ascii.eqb d c || contains c s'
  end.

End JsString.

(** The text ['\n']. *)
Definition nl : string := String JsString.newline EmptyString.

(** ** The framing step of [handleData]

    [this.buffer += data; lines = this.buffer.split('\n');
     this.buffer = lines.pop() || ''] *)

Definition frame (buffer data : string) : list string * string :=
  let lines := JsString.split JsString.newline (buffer ++ data)%string in
  let '(popped, lines) := JsString.pop lines in
  (lines,
   match popped with
   | Some s => if JsString.is_empty s then EmptyString else s
   | None => EmptyString
   end).

(** Feeding the chunks one read at a time, each read starting from the
    buffer the previous one left. *)
Fixpoint feed_all (buffer : string) (chunks : list string)
  : list string * string :=
  match chunks with
  | [] => ([], buffer)
  | data :: chunks' =>
      let '(lines, buffer') := frame buffer data in
      let '(more, rest) := feed_all buffer' chunks' in
      (lines ++ more, rest)
  end.

(** [if (!line.trim()) continue] *)
Definition skipped (line : string) : bool :=
  JsString.is_empty (JsString.trim line).

(** ** The bytes of a read

    The listener on the worker's output is
    [(data: Buffer) => this.handleData(data.toString())]: each read is
    decoded on its own, as UTF-8, before it reaches the buffer.  What is no
    UTF-8 in the bytes of a read, the head or the tail of a character cut
    by the end of the read included, decodes to U+FFFD.  That code unit is
    above 0xFF, so decoded text is here the list of its UTF-16 code
    units.  [Buffer.prototype.toString] is the platform's; the decoder
    below is the one of the Encoding standard, which replaces every
    maximal ill-formed part of the bytes by one U+FFFD. *)

Module Utf8.

Local Open Scope N_scope.

Definition replacement : N := 65533.

(** What a byte is at the start of a character: a character of its own,
    the first of [needed] more bytes, the next of which lies between
    [lower] and [upper], or no start at all. *)
Inductive lead_byte : Type :=
  | Single (point : N)
  | Lead (point : N) (needed : nat) (lower upper : N)
  | Invalid.

Definition lead (b : N) : lead_byte :=
  if b <=? 127 then Single b
  else if (194 <=? b) && (b <=? 223) then Lead (N.land b 31) 1 128 191
  else if (224 <=? b) && (b <=? 239) then
    Lead (N.land b 15) 2 (if b =? 224 then 160 else 128)
                         (if b =? 237 then 159 else 191)
  else if (240 <=? b) && (b <=? 244) then
    Lead (N.land b 7) 3 (if b =? 240 then 144 else 128)
                        (if b =? 244 then 143 else 191)
  else Invalid.

(** The code points of a byte sequence, [pending] being the character
    under way.  A byte that cannot continue it ends it with a replacement
    and is read again as a start; so does the end of the bytes. *)
Fixpoint decode_from (pending : option (N * nat * N * N)) (bytes : list N)
  : list N :=
  match bytes with
  | [] =>
      match pending with
      | Some _ => [replacement]
      | None => []
      end
  | b :: rest =>
      let start :=
        match lead b with
        | Single point => point :: decode_from None rest
        | Lead point needed lower upper =>
            decode_from (Some (point, needed, lower, upper)) rest
        | Invalid => replacement :: decode_from None rest
        end in
      match pending with
      | Some (point, needed, lower, upper) =>
          if (lower <=? b) && (b <=? upper) then
            let point' := point * 64 + N.land b 63 in
            match needed with
            | S (S n) => decode_from (Some (point', S n, 128, 191)) rest
            | _ => point' :: decode_from None rest
            end
          else replacement :: start
      | None => start
      end
  end.

(** The UTF-16 code units of a code point. *)
Definition units (point : N) : list N :=
  if point <? 65536 then [point]
  else [55296 + (point - 65536) / 1024; 56320 + (point - 65536) mod 1024].

(** [buf.toString()] *)
Definition toString (data : list Byte.byte) : list N :=
  List.flat_map units (decode_from None (List.map Byte.to_N data)).

End Utf8.

(** The framing step on such text: the statements of [frame], the empty
    text being what [|| ''] makes of an empty rest. *)

Module Utf16.

Definition newline : N := 10%N.

Fixpoint split (sep : N) (s : list N) : list (list N) :=
  match s with
  | [] => [[]]
  | c :: s' =>
      if N.eqb c sep then [] :: split sep s'
      else match split sep s' with
           | seg :: segs => (c :: seg) :: segs
           | [] => [[c]]
           end
  end.

Definition frame (buffer data : list N) : list (list N) * list N :=
  let lines := split newline (buffer ++ data) in
  let '(popped, lines) := JsString.pop lines in
  (lines,
   match popped with
   | Some s => s
   | None => []
   end).

Fixpoint feed_all (buffer : list N) (chunks : list (list N))
  : list (list N) * list N :=
  match chunks with
  | [] => ([], buffer)
  | data :: chunks' =>
      let '(lines, buffer') := frame buffer data in
      let '(more, rest) := feed_all buffer' chunks' in
      (lines ++ more, rest)
  end.

(** The code units of a text within 0xFF. *)
Definition of_string (s : string) : list N :=
  List.map N_of_ascii (list_ascii_of_string s).

(** The lines and the rest after the reads of the worker's output, each
    read decoded on its own. *)
Definition read_all (reads : list (list Byte.byte)) : list (list N) * list N :=
  feed_all [] (List.map Utf8.toString reads).

End Utf16.

(** 2^53: up to it every integer is a double, and adding one to it gives
    it back. *)
Definition MAX_EXACT : Z := 9007199254740992.

(** ** JSON values

    What [JSON.parse] returns and [JSON.stringify] takes.  A number is an
    integer of magnitude up to [MAX_EXACT], as ids and limits are; an object
    is the list of its members in enumeration order. *)

#[local] Set Warnings "-register-all".

Inductive json : Type :=
  | JNull
  | JBool (b : bool)
  | JNum (n : Z)
  | JStr (s : string)
  | JArr (items : list json)
  | JObj (members : list (string * json)).

(** A JavaScript value that may be [undefined]. *)
Abbreviation jsval := (option json) (only parsing).

Module Js.

Local Open Scope string_scope.

Definition dquote : ascii := "034"%char.
Definition backslash : ascii := "092"%char.

(** The own member [k] of a parsed object.  A repeated key holds its last
    value. *)
Fixpoint lookup_member (k : string) (ms : list (string * json)) : jsval :=
  match ms with
  | [] => None
  | (k', v) :: ms' =>
      match lookup_member k ms' with
      | Some w => Some w
      | None => if String.eqb k' k then Some v else None
      end
  end.

(** The read [o.k] on a non-null value, for the member names this client
    reads (id, error, result, message, content, text), none of which a
    built-in prototype defines. *)
Definition prop (k : string) (v : json) : jsval :=
  match v with
  | JObj ms => lookup_member k ms
  | _ => None
  end.

(** Optional chaining [x?.k]. *)
Definition opt_prop (k : string) (x : jsval) : jsval :=
  match x with
  | None | Some JNull => None
  | Some v => prop k v
  end.

(** Optional chaining [x?.[0]]. *)
Definition opt_first (x : jsval) : jsval :=
  match x with
  | None | Some JNull => None
  | Some (JArr items) => List.head items
  | Some (JStr (String c _)) => Some (JStr (String c EmptyString))
  | Some (JObj ms) => lookup_member "0" ms
  | Some _ => None
  end.

(** ToBoolean. *)
Definition truthy (x : jsval) : bool :=
  match x with
  | None | Some JNull => false
  | Some (JBool b) => b
  | Some (JNum n) => negb (n =? 0)%Z
  | Some (JStr s) => negb (JsString.is_empty s)
  | Some (JArr _) | Some (JObj _) => true
  end.

(** Number::toString of an integer below 10^21 in magnitude: its decimal
    digits. *)
Definition digit (n : N) : ascii := ascii_of_N (48 + n).

Fixpoint digits_from (fuel : nat) (n : N) (acc : string) : string :=
  match fuel with
  | O => acc
  | S fuel' =>
      let acc' := String (digit (n mod 10)) acc in
      if (n / 10 =? 0)%N then acc' else digits_from fuel' (n / 10) acc'
  end.

Definition N_to_string (n : N) : string :=
  digits_from (S (N.size_nat n)) n EmptyString.

Definition number_to_string (n : Z) : string :=
  match n with
  | Z0 => "0"
  | Zpos p => N_to_string (Npos p)
  | Zneg p => String "-" (N_to_string (Npos p))
  end.

Fixpoint join (sep : string) (l : list string) : string :=
  match l with
  | [] => EmptyString
  | [s] => s
  | s :: l' => s ++ sep ++ join sep l'
  end.

(** ToString of a value, as [JSON.parse] and [new Error] apply it to their
    argument; [None] is its TypeError.  An object is converted by its
    [toString] and then its [valueOf]: the inherited [toString] answers
    with a fixed text, but an own member of that name, which in a parsed
    value is never a function, hides it, and [valueOf], own or inherited,
    gives no primitive value either.  An array joins the conversions of its
    elements, [null] counting as the empty text. *)
Fixpoint to_string (v : json) : option string :=
  match v with
  | JNull => Some "null"
  | JBool true => Some "true"
  | JBool false => Some "false"
  | JNum n => Some (number_to_string n)
  | JStr s => Some s
  | JArr items =>
      join "," <$>
        (fix elements (l : list json) : option (list string) :=
           match l with
           | [] => Some []
           | item :: l' =>
               match match item with
                     | JNull => Some EmptyString
                     | _ => to_string item
                     end with
               | Some s => cons s <$> elements l'
               | None => None
               end
           end) items
  | JObj ms =>
      match lookup_member "toString" ms with
      | Some _ => None
      | None => Some "[object Object]"
      end
  end.

(** [new Error(message)]: the message of the error made.  An absent
    argument leaves the empty message of the prototype; any other is
    converted by ToString, whose TypeError is [None]. *)
Definition new_Error (message : jsval) : option string :=
  match message with
  | Some v => to_string v
  | None => Some EmptyString
  end.

(** *** JSON.stringify *)

Definition hex_digit (n : N) : ascii :=
  if (n <? 10)%N then ascii_of_N (48 + n) else ascii_of_N (87 + n).

Definition escape_char (c : ascii) : string :=
  let n := N_of_ascii c in
  if Ascii.eqb c dquote then String backslash (String dquote EmptyString)
  else if Ascii.eqb c backslash then String backslash (String backslash EmptyString)
  else if (n =? 8)%N then String backslash "b"
  else if (n =? 12)%N then String backslash "f"
  else if (n =? 10)%N then String backslash "n"
  else if (n =? 13)%N then String backslash "r"
  else if (n =? 9)%N then String backslash "t"
  else if (n <? 32)%N then
    String backslash
      (String "u" (String "0" (String "0"
         (String (hex_digit (n / 16)) (String (hex_digit (n mod 16)) EmptyString)))))
  else String c EmptyString.

Fixpoint escape (s : string) : string :=
  match s with
  | EmptyString => EmptyString
  | String c s' => escape_char c ++ escape s'
  end.

Definition quote (s : string) : string :=
  String dquote (escape s ++ String dquote EmptyString).

Fixpoint stringify (v : json) : string :=
  match v with
  | JNull => "null"
  | JBool true => "true"
  | JBool false => "false"
  | JNum n => number_to_string n
  | JStr s => quote s
  | JArr items => "[" ++ join "," (List.map stringify items) ++ "]"
  | JObj ms =>
      "{" ++ join "," (List.map (fun m => quote (fst m) ++ ":" ++ stringify (snd m)) ms)
          ++ "}"
  end.

End Js.

(** ** A reference JSON parser

    [JSON.parse] is the platform's.  The client below takes it as a
    parameter; this parser instantiates it on concrete texts.  It reads the
    JSON grammar with the numbers of [json] (a fraction, an exponent or a
    magnitude above [MAX_EXACT] is refused) and escapes up to code unit
    0xFF. *)

Module JsonParser.

Local Open Scope string_scope.

Definition is_json_space (c : ascii) : bool :=
  let n := N_of_ascii c in
  ((n =? 32) || (n =? 9) || (n =? 10) || (n =? 13))%N.

Fixpoint skip_space (s : string) : string :=
  match s with
  | String c s' => if is_json_space c then skip_space s' else s
  | EmptyString => EmptyString
  end.

Definition hex_value (c : ascii) : option N :=
  let n := N_of_ascii c in
  if ((48 <=? n) && (n <=? 57))%N then Some (n - 48)%N
  else if ((97 <=? n) && (n <=? 102))%N then Some (n - 87)%N
  else if ((65 <=? n) && (n <=? 70))%N then Some (n - 55)%N
  else None.

Definition simple_escape (c : ascii) : option ascii :=
  if Ascii.eqb c Js.dquote then Some Js.dquote
  else if Ascii.eqb c Js.backslash then Some Js.backslash
  else if Ascii.eqb c "/" then Some "/"%char
  else if Ascii.eqb c "b" then Some (ascii_of_N 8)
  else if Ascii.eqb c "f" then Some (ascii_of_N 12)
  else if Ascii.eqb c "n" then Some (ascii_of_N 10)
  else if Ascii.eqb c "r" then Some (ascii_of_N 13)
  else if Ascii.eqb c "t" then Some (ascii_of_N 9)
  else None.

(** The characters after an opening quote, up to the closing one. *)
Fixpoint string_body (s : string) : option (string * string) :=
  match s with
  | EmptyString => None
  | String c s' =>
      if Ascii.eqb c Js.dquote then Some (EmptyString, s')
      else if Ascii.eqb c Js.backslash then
        match s' with
        | String "u" (String h1 (String h2 (String h3 (String h4 s'')))) =>
            match hex_value h1, hex_value h2, hex_value h3, hex_value h4 with
            | Some 0%N, Some 0%N, Some a, Some b =>
                match string_body s'' with
                | Some (body, rest) =>
                    Some (String (ascii_of_N (16 * a + b)) body, rest)
                | None => None
                end
            | _, _, _, _ => None
            end
        | String e s'' =>
            match simple_escape e, string_body s'' with
            | Some d, Some (body, rest) => Some (String d body, rest)
            | _, _ => None
            end
        | EmptyString => None
        end
      else if (N_of_ascii c <? 32)%N then None
      else match string_body s' with
           | Some (body, rest) => Some (String c body, rest)
           | None => None
           end
  end.

Definition digit_value (c : ascii) : option N :=
  let n := N_of_ascii c in
  if ((48 <=? n) && (n <=? 57))%N then Some (n - 48)%N else None.

Fixpoint digits (acc : N) (s : string) : N * string :=
  match s with
  | String c s' =>
      match digit_value c with
      | Some d => digits (10 * acc + d) s'
      | None => (acc, s)
      end
  | EmptyString => (acc, EmptyString)
  end.

(** An integer: [0] or a non-zero digit followed by digits. *)
Definition natural (s : string) : option (N * string) :=
  match s with
  | String c s' =>
      match digit_value c with
      | Some 0%N =>
          match s' with
          | String d _ =>
              match digit_value d with
              | Some _ => None
              | None => Some (0%N, s')
              end
          | EmptyString => Some (0%N, s')
          end
      | Some d => Some (digits d s')
      | None => None
      end
  | EmptyString => None
  end.

Definition integral (r : N * string) : option (N * string) :=
  if (Z.of_N (fst r) <=? MAX_EXACT)%Z then
    match snd r with
    | String c _ =>
        if Ascii.eqb c "." || Ascii.eqb c "e" || Ascii.eqb c "E" then None
        else Some r
    | EmptyString => Some r
    end
  else None.

Definition number (s : string) : option (json * string) :=
  match s with
  | String "-" s' =>
      match natural s' ≫= integral with
      | Some (n, rest) => Some (JNum (- Z.of_N n), rest)
      | None => None
      end
  | _ =>
      match natural s ≫= integral with
      | Some (n, rest) => Some (JNum (Z.of_N n), rest)
      | None => None
      end
  end.

Fixpoint expect (word s : string) : option string :=
  match word, s with
  | EmptyString, _ => Some s
  | String a word', String b s' =>
      if Ascii.eqb a b then expect word' s' else None
  | String _ _, EmptyString => None
  end.

Fixpoint value (fuel : nat) (s : string) : option (json * string) :=
  match fuel with
  | O => None
  | S fuel' =>
      match skip_space s with
      | String "n" _ as t => (fun r => (JNull, r)) <$> expect "null" t
      | String "t" _ as t => (fun r => (JBool true, r)) <$> expect "true" t
      | String "f" _ as t => (fun r => (JBool false, r)) <$> expect "false" t
      | String "[" t =>
          match skip_space t with
          | String "]" r => Some (JArr [], r)
          | _ => (fun p => (JArr (fst p), snd p)) <$> elements fuel' t
          end
      | String "{" t =>
          match skip_space t with
          | String "}" r => Some (JObj [], r)
          | _ => (fun p => (JObj (fst p), snd p)) <$> members fuel' t
          end
      | String c t as u =>
          if Ascii.eqb c Js.dquote
          then (fun p => (JStr (fst p), snd p)) <$> string_body t
          else number u
      | EmptyString => None
      end
  end
with elements (fuel : nat) (s : string) : option (list json * string) :=
  match fuel with
  | O => None
  | S fuel' =>
      match value fuel' s with
      | Some (v, r) =>
          match skip_space r with
          | String "," r' =>
              (fun p => (v :: fst p, snd p)) <$> elements fuel' r'
          | String "]" r' => Some ([v], r')
          | _ => None
          end
      | None => None
      end
  end
with members (fuel : nat) (s : string)
  : option (list (string * json) * string) :=
  match fuel with
  | O => None
  | S fuel' =>
      match skip_space s with
      | String q t =>
          if Ascii.eqb q Js.dquote then
            match string_body t with
            | Some (k, r) =>
                match skip_space r with
                | String ":" r' =>
                    match value fuel' r' with
                    | Some (v, r'') =>
                        match skip_space r'' with
                        | String "," r3 =>
                            (fun p => ((k, v) :: fst p, snd p)) <$> members fuel' r3
                        | String "}" r3 => Some ([(k, v)], r3)
                        | _ => None
                        end
                    | None => None
                    end
                | _ => None
                end
            | None => None
            end
          else None
      | EmptyString => None
      end
  end.

Definition parse (text : string) : option json :=
  match value (2 * String.length text + 2) text with
  | Some (v, rest) =>
      if JsString.is_empty (skip_space rest) then Some v else None
  | None => None
  end.

(** Literals below write a double quote as an apostrophe. *)
Definition lit (s : string) : string :=
  string_of_list_ascii
    (List.map (fun c => if Ascii.eqb c "'" then Js.dquote else c)
       (list_ascii_of_string s)).

End JsonParser.

(** ** The client and the runtime around it *)

(** A promise created by [call], named by its creation rank. *)
Abbreviation promise := nat (only parsing).

(** How a promise of [call] is settled: [resolve(response.result)],
    [reject(new Error(response.error.message))] or
    [reject(new Error('Request timeout'))]. *)
Inductive outcome : Type :=
  | Resolved (result : jsval)
  | RejectedRemote (message : string)
  | RejectedTimeout.

Inductive log_entry : Type :=
  | ParseFailure (line : string)
  | ProcessExited.

(** The worker: [stdin] is the text written to its input pipe, absent when
    the spawn failed. *)
Record ChildProcess : Type := {
  pid : nat;
  stdin : option (list string);
}.

Record State : Type := {
  (* the fields of McpClient *)
  process : option ChildProcess;
  command : string;
  requestId : Z;
  pendingRequests : gmap Z promise;
  buffer : string;
  connected : bool;
  (* the runtime *)
  promises : nat;                      (* promises created by call *)
  timers : list (Z * promise);         (* armed setTimeout callbacks, oldest first *)
  settled : list (promise * outcome);  (* calls of resolve or reject, in order *)
  handshakes : list promise;           (* promises whose then() sets connected *)
  console : list log_entry;
  killed : list ChildProcess;
  spawned : nat;
}.

(** [new McpClient(command)] *)
Definition new_McpClient (cmd : string) : State := {|
  process := None; command := cmd; requestId := 0; pendingRequests := ∅;
  buffer := EmptyString; connected := false;
  promises := O; timers := []; settled := []; handshakes := [];
  console := []; killed := []; spawned := O;
|}.

Definition with_process (v : option ChildProcess) (st : State) : State := {|
  process := v; command := command st; requestId := requestId st;
  pendingRequests := pendingRequests st; buffer := buffer st;
  connected := connected st; promises := promises st; timers := timers st;
  settled := settled st; handshakes := handshakes st; console := console st;
  killed := killed st; spawned := spawned st;
|}.

Definition with_requestId (v : Z) (st : State) : State := {|
  process := process st; command := command st; requestId := v;
  pendingRequests := pendingRequests st; buffer := buffer st;
  connected := connected st; promises := promises st; timers := timers st;
  settled := settled st; handshakes := handshakes st; console := console st;
  killed := killed st; spawned := spawned st;
|}.

Definition with_pendingRequests (v : gmap Z promise) (st : State) : State := {|
  process := process st; command := command st; requestId := requestId st;
  pendingRequests := v; buffer := buffer st;
  connected := connected st; promises := promises st; timers := timers st;
  settled := settled st; handshakes := handshakes st; console := console st;
  killed := killed st; spawned := spawned st;
|}.

Definition with_buffer (v : string) (st : State) : State := {|
  process := process st; command := command st; requestId := requestId st;
  pendingRequests := pendingRequests st; buffer := v;
  connected := connected st; promises := promises st; timers := timers st;
  settled := settled st; handshakes := handshakes st; console := console st;
  killed := killed st; spawned := spawned st;
|}.

Definition with_connected (v : bool) (st : State) : State := {|
  process := process st; command := command st; requestId := requestId st;
  pendingRequests := pendingRequests st; buffer := buffer st;
  connected := v; promises := promises st; timers := timers st;
  settled := settled st; handshakes := handshakes st; console := console st;
  killed := killed st; spawned := spawned st;
|}.

Definition with_promises (v : nat) (st : State) : State := {|
  process := process st; command := command st; requestId := requestId st;
  pendingRequests := pendingRequests st; buffer := buffer st;
  connected := connected st; promises := v; timers := timers st;
  settled := settled st; handshakes := handshakes st; console := console st;
  killed := killed st; spawned := spawned st;
|}.

Definition with_timers (v : list (Z * promise)) (st : State) : State := {|
  process := process st; command := command st; requestId := requestId st;
  pendingRequests := pendingRequests st; buffer := buffer st;
  connected := connected st; promises := promises st; timers := v;
  settled := settled st; handshakes := handshakes st; console := console st;
  killed := killed st; spawned := spawned st;
|}.

Definition with_settled (v : list (promise * outcome)) (st : State) : State := {|
  process := process st; command := command st; requestId := requestId st;
  pendingRequests := pendingRequests st; buffer := buffer st;
  connected := connected st; promises := promises st; timers := timers st;
  settled := v; handshakes := handshakes st; console := console st;
  killed := killed st; spawned := spawned st;
|}.

Definition with_handshakes (v : list promise) (st : State) : State := {|
  process := process st; command := command st; requestId := requestId st;
  pendingRequests := pendingRequests st; buffer := buffer st;
  connected := connected st; promises := promises st; timers := timers st;
  settled := settled st; handshakes := v; console := console st;
  killed := killed st; spawned := spawned st;
|}.

Definition with_console (v : list log_entry) (st : State) : State := {|
  process := process st; command := command st; requestId := requestId st;
  pendingRequests := pendingRequests st; buffer := buffer st;
  connected := connected st; promises := promises st; timers := timers st;
  settled := settled st; handshakes := handshakes st; console := v;
  killed := killed st; spawned := spawned st;
|}.

Definition with_killed (v : list ChildProcess) (st : State) : State := {|
  process := process st; command := command st; requestId := requestId st;
  pendingRequests := pendingRequests st; buffer := buffer st;
  connected := connected st; promises := promises st; timers := timers st;
  settled := settled st; handshakes := handshakes st; console := console st;
  killed := v; spawned := spawned st;
|}.

Definition with_spawned (v : nat) (st : State) : State := {|
  process := process st; command := command st; requestId := requestId st;
  pendingRequests := pendingRequests st; buffer := buffer st;
  connected := connected st; promises := promises st; timers := timers st;
  settled := settled st; handshakes := handshakes st; console := console st;
  killed := killed st; spawned := v;
|}.

(** [++this.requestId] on the counter's range 0 .. 2^53. *)
Definition increment (n : Z) : Z := if n <? MAX_EXACT then n + 1 else n.

(** [this.process?.stdin] *)
Definition process_stdin (st : State) : option (list string) :=
  match process st with
  | Some child => stdin child
  | None => None
  end.

Inductive call_result : Type :=
  | Threw (message : string)
  | Pending (id : Z) (p : promise).

Definition issued (r : call_result) : list Z :=
  match r with
  | Pending id _ => [id]
  | Threw _ => []
  end.

(** The request object of [call]. *)
Definition request (method : string) (params : json) (id : Z) : json :=
  JObj [("jsonrpc", JStr "2.0"); ("method", JStr method);
        ("params", params); ("id", JNum id)]%string.

(** [call(method, params)]: the guard, the id, the registration, the write
    and the 30 s timer all happen at the invocation. *)
Definition call (method : string) (params : json) (st : State)
  : call_result * State :=
  match process st with
  | Some child =>
      match stdin child with
      | Some written =>
          let id := increment (requestId st) in
          let p := S (promises st) in
          let requestStr := (Js.stringify (request method params id) ++ nl)%string in
          let child' := {| pid := pid child;
                           stdin := Some (written ++ [requestStr]) |} in
          (Pending id p,
           with_timers (timers st ++ [(id, p)])
             (with_process (Some child')
                (with_pendingRequests (<[id := p]> (pendingRequests st))
                   (with_promises p (with_requestId id st)))))
      | None => (Threw "Not connected to MCP server", st)
      end
  | None => (Threw "Not connected to MCP server", st)
  end.

(** A call of [resolve] or [reject] of promise [p]; the continuation of
    [connect] sets [connected] when the handshake resolves. *)
Definition settle (p : promise) (o : outcome) (st : State) : State :=
  let st' := with_settled (settled st ++ [(p, o)]) st in
  match o with
  | Resolved _ =>
      if bool_decide (p ∈ handshakes st) then with_connected true st' else st'
  | _ => st'
  end.

(** How a block of statements ends: at its last statement, or at a
    [throw]; either way in the state reached by then. *)
Inductive completion : Type :=
  | Normal (st : State)
  | Abrupt (st : State).

(** The body of the [try] in [handleData] after [JSON.parse].  It throws a
    TypeError in two places: reading [id] off [null], and, once the entry
    of the request has been deleted, making the error of a message that has
    no string conversion. *)
Definition handleResponse (response : json) (st : State) : completion :=
  match response with
  | JNull => Abrupt st
  | _ =>
      match Js.prop "id" response with
      | Some (JNum id) =>
          match pendingRequests st !! id with
          | Some p =>
              let st' := with_pendingRequests (delete id (pendingRequests st)) st in
              let error := Js.prop "error" response in
              if Js.truthy error
              then match Js.new_Error (Js.opt_prop "message" error) with
                   | Some message => Normal (settle p (RejectedRemote message) st')
                   | None => Abrupt st'
                   end
              else Normal (settle p (Resolved (Js.prop "result" response)) st')
          | None => Normal st
          end
      | _ => Normal st
      end
  end.

(** The callback [call] hands to [setTimeout] for request [id] of
    promise [p]. *)
Definition on_timeout (t : Z * promise) (st : State) : State :=
  let '(id, p) := t in
  if bool_decide (is_Some (pendingRequests st !! id))
  then settle p RejectedTimeout
         (with_pendingRequests (delete id (pendingRequests st)) st)
  else st.

(** All timers have the same delay, so they fire in the order they were
    armed. *)
Definition fire_timer (st : State) : State :=
  match timers st with
  | [] => st
  | t :: ts => on_timeout t (with_timers ts st)
  end.

Definition disconnect (st : State) : State :=
  match process st with
  | Some child =>
      with_connected false (with_process None (with_killed (child :: killed st) st))
  | None => st
  end.

Definition isConnected (st : State) : bool := connected st.

(** The handlers [connect] puts on the process. *)
Definition on_close (st : State) : State :=
  with_console (console st ++ [ProcessExited]) (with_connected false st).

Definition on_error (st : State) : State := with_connected false st.

Definition initialize_params : json :=
  JObj [("protocolVersion", JStr "0.1.0"); ("capabilities", JObj []);
        ("clientInfo", JObj [("name", JStr "caiide-memory");
                             ("version", JStr "0.1.0")])]%string.

Definition initialize (st : State) : call_result * State :=
  call "initialize" initialize_params st.

(** [connect()]: [spawn_ok] tells whether the spawned child has its pipes.
    The result is absent on the early return, else that of the handshake
    call. *)
Definition connect (spawn_ok : bool) (st : State)
  : option call_result * State :=
  if connected st && bool_decide (is_Some (process st)) then (None, st)
  else
    let child := {| pid := spawned st;
                    stdin := if spawn_ok then Some [] else None |} in
    let st1 := with_spawned (S (spawned st)) (with_process (Some child) st) in
    match initialize st1 with
    | (Pending id p, st2) =>
        (Some (Pending id p), with_handshakes (p :: handshakes st2) st2)
    | (Threw m, st2) => (Some (Threw m), st2)
    end.

(** The typed methods are [call]s of [tools/call]. *)
Definition tool_call (name : string) (arguments : json) : State -> call_result * State :=
  call "tools/call" (JObj [("name", JStr name); ("arguments", arguments)]%string).

Definition search (query : string) (limit : option Z) : State -> call_result * State :=
  tool_call "memory_search"
    (JObj [("query", JStr query); ("limit", JNum (default 20 limit))]%string).

Definition store (content type source : string) (tags : option (list string))
  : State -> call_result * State :=
  tool_call "memory_store"
    (JObj [("content", JStr content); ("type", JStr type);
           ("source", JStr source);
           ("tags", JArr (List.map JStr (default [] tags)))]%string).

Definition recall (id : string) : State -> call_result * State :=
  tool_call "memory_recall" (JObj [("id", JStr id)]%string).

(** [list(limit)], named apart from the type of lists. *)
Definition list_memories (limit : option Z) : State -> call_result * State :=
  tool_call "memory_list" (JObj [("limit", JNum (default 20 limit))]%string).

Definition getStats : State -> call_result * State :=
  tool_call "memory_stats" (JObj []).

(** [delete(id)], named apart from the deletion of map entries. *)
Definition delete_memory (id : string) : State -> call_result * State :=
  tool_call "memory_delete" (JObj [("id", JStr id)]%string).

(** [result?.content?.[0]?.text] *)
Definition content_text (result : jsval) : jsval :=
  Js.opt_prop "text" (Js.opt_first (Js.opt_prop "content" result)).

(** What the process and its callers can do to the client. *)
Inductive event : Type :=
  | Connect (spawn_ok : bool)
  | Call (method : string) (params : json)
  | Data (chunk : string)
  | Timer
  | Close
  | Error
  | Disconnect.

Section Client.

(** [JSON.parse]: the parsed value, or [None] when it throws. *)
Variable JSON_parse : string -> option json.

Definition log_failure (line : string) (st : State) : State :=
  with_console (console st ++ [ParseFailure line]) st.

(** One turn of the loop over the complete lines: the [catch] logs the
    line, whatever was thrown and wherever. *)
Definition handle_line (line : string) (st : State) : State :=
  if skipped line then st
  else
    match JSON_parse line with
    | Some response =>
        match handleResponse response st with
        | Normal st' => st'
        | Abrupt st' => log_failure line st'
        end
    | None => log_failure line st
    end.

Definition handle_lines (lines : list string) (st : State) : State :=
  fold_left (fun st line => handle_line line st) lines st.

Definition handleData (data : string) (st : State) : State :=
  let '(lines, rest) := frame (buffer st) data in
  handle_lines lines (with_buffer rest st).

(** [JSON.parse(text)] on a value: its ToString, then the parse; [None]
    when either throws. *)
Definition JSON_parse_value (text : json) : option json :=
  Js.to_string text ≫= JSON_parse.

(** What [search] and [list] return once their [call] has resolved with
    [result]. *)
Definition search_result (result : jsval) : json :=
  match content_text result with
  | Some text =>
      if Js.truthy (Some text)
      then match JSON_parse_value text with
           | Some v => v
           | None => JArr []
           end
      else JArr []
  | None => JArr []
  end.

Definition list_result (result : jsval) : json :=
  match content_text result with
  | Some text =>
      if Js.truthy (Some text)
      then match JSON_parse_value text with
           | Some v => v
           | None => JArr []
           end
      else JArr []
  | None => JArr []
  end.

(** What [recall] returns. *)
Definition recall_result (result : jsval) : json :=
  match content_text result with
  | Some text =>
      if Js.truthy (Some text)
      then match JSON_parse_value text with
           | Some v => v
           | None => JNull
           end
      else JNull
  | None => JNull
  end.

(** What [store] returns: [text || '']. *)
Definition store_result (result : jsval) : json :=
  match content_text result with
  | Some text => if Js.truthy (Some text) then text else JStr EmptyString
  | None => JStr EmptyString
  end.

(** What [getStats] returns; [None] when [JSON.parse] throws, which this
    method does not catch. *)
Definition getStats_result (result : jsval) : option json :=
  match content_text result with
  | Some text =>
      if Js.truthy (Some text) then JSON_parse_value text
      else Some (JObj [("total_documents", JNum 0); ("components", JObj [])]%string)
  | None => Some (JObj [("total_documents", JNum 0); ("components", JObj [])]%string)
  end.

(** One event: the ids it assigned and the state it leaves. *)
Definition step (e : event) (st : State) : list Z * State :=
  match e with
  | Connect spawn_ok =>
      let '(r, st') := connect spawn_ok st in
      (match r with Some r => issued r | None => [] end, st')
  | Call method params =>
      let '(r, st') := call method params st in (issued r, st')
  | Data chunk => ([], handleData chunk st)
  | Timer => ([], fire_timer st)
  | Close => ([], on_close st)
  | Error => ([], on_error st)
  | Disconnect => ([], disconnect st)
  end.

Fixpoint run (evs : list event) (st : State) : list Z * State :=
  match evs with
  | [] => ([], st)
  | e :: evs' =>
      let '(ids, st1) := step e st in
      let '(ids', st2) := run evs' st1 in
      (ids ++ ids', st2)
  end.

Definition state_after (evs : list event) (st : State) : State :=
  snd (run evs st).

Definition ids_assigned (evs : list event) (st : State) : list Z :=
  fst (run evs st).

End Client.

(** ** The invariant of the bookkeeping *)

(** What holds of every state the client reaches while its counter is
    below [MAX_EXACT]: the request of the [p]-th promise has id [p]; a
    pending request has its timer armed and its promise unsettled; no
    promise is settled twice. *)
Record wf (st : State) : Prop := {
  wf_counter : requestId st = Z.of_nat (promises st);
  wf_pending : forall id p,
    pendingRequests st !! id = Some p ->
    id = Z.of_nat p /\ (id, p) ∈ timers st /\ p ∉ (settled st).*1;
  wf_timers : forall id p,
    (id, p) ∈ timers st -> id = Z.of_nat p /\ (1 <= p <= promises st)%nat;
  wf_timers_nodup : NoDup (timers st);
  wf_settled : forall p, p ∈ (settled st).*1 -> (1 <= p <= promises st)%nat;
  wf_settled_nodup : NoDup (settled st).*1;
}.

(** ** Counting the events of a run *)

Definition is_call (e : event) : bool :=
  match e with
  | Call _ _ => true
  | _ => false
  end.

(** The events that may assign an id: a call, and the handshake call of a
    connect. *)
Definition may_request (e : event) : bool :=
  match e with
  | Call _ _ | Connect _ => true
  | _ => false
  end.

Definition invocations (evs : list event) : nat := length (List.filter is_call evs).

Definition requests (evs : list event) : nat := length (List.filter may_request evs).

(** The events of one connection: neither a connect nor a disconnect. *)
Definition same_connection (e : event) : bool :=
  match e with
  | Connect _ | Disconnect => false
  | _ => true
  end.

(** Reads the fields of an updated record, and nothing else. *)
Ltac fields :=
  cbn [process command requestId pendingRequests buffer connected promises
       timers settled handshakes console killed spawned
       with_process with_requestId with_pendingRequests with_buffer
       with_connected with_promises with_timers with_settled with_handshakes
       with_console with_killed with_spawned log_failure on_close on_error] in *.

(** ** Readings of the specification the code departs from, and the
    states that show it *)

(** [disconnect] read as settling every pending request and emptying the
    pending set. *)
Definition disconnect_drains (st : State) : Prop :=
  pendingRequests (disconnect st) = ∅
  /\ forall id p, pendingRequests st !! id = Some p ->
                  p ∈ (settled (disconnect st)).*1.

(** A client whose handshake has been answered. *)
Definition ready_client : State :=
  state_after JsonParser.parse
    [Connect true;
     Data (JsonParser.lit "{'jsonrpc':'2.0','id':1,'result':{}}" ++ nl)%string]
    (new_McpClient "python -m memory_mcp.server").

Definition ready_with_search : State :=
  snd (search "foo" (Some 20) ready_client).

(** [call] read as failing, and writing nothing, on every client that is
    not ready. *)
Definition call_needs_ready (st : State) : Prop :=
  connected st = false ->
  forall method params,
    exists message,
      fst (call method params st) = Threw message
      /\ process (snd (call method params st)) = process st.

(** A client whose worker is spawned and whose handshake is unanswered. *)
Definition connecting_client : State :=
  snd (connect true (new_McpClient "python -m memory_mcp.server")).

(** The text before a final newline. *)
Fixpoint chop_newline (s : string) : option string :=
  match s with
  | EmptyString => None
  | String c EmptyString =>
      if Ascii.eqb c JsString.newline then Some EmptyString else None
  | String c s' => String c <$> chop_newline s'
  end.

(** The envelope of [search] read as a newline-terminated JSON line with
    method memory_search, params {query, limit} and the protocol tag. *)
Definition spec_search_envelope (query : string) (limit : Z) (line : string) : Prop :=
  exists body v,
    chop_newline line = Some body
    /\ JsonParser.parse body = Some v
    /\ Js.prop "method" v = Some (JStr "memory_search")
    /\ Js.prop "params" v
       = Some (JObj [("query", JStr query); ("limit", JNum limit)]%string)
    /\ Js.prop "protocol" v = Some (JStr "2.0").

Definition last_written (st : State) : option string :=
  process_stdin st ≫= fun written => List.last (List.map Some written) None.

(** A text without a raw newline. *)
Abbreviation clean s := (JsString.contains JsString.newline s = false).

(** The request object [search] hands to [JSON.stringify]. *)
Definition search_request (query : string) (limit : option Z) (id : Z) : json :=
  JObj [("jsonrpc", JStr "2.0");
        ("method", JStr "tools/call");
        ("params", JObj [("name", JStr "memory_search");
                         ("arguments", JObj [("query", JStr query);
                                             ("limit", JNum (default 20 limit))])]);
        ("id", JNum id)]%string.

(** ** Auxiliary notions *)

(** The state without what was logged. *)
Definition erase_console (st : State) : State := with_console [] st.

(** A promise of [call] that is neither pending nor settled: nothing is
    left that would settle it. *)
Definition stranded (p : promise) (st : State) : Prop :=
  (1 <= p <= promises st)%nat
  /\ pendingRequests st !! Z.of_nat p = None
  /\ p ∉ (settled st).*1.

(** The documented payload of [search] and [list]: the text of the first
    content item is a string holding the JSON of a sequence. *)
Definition payload_is_sequence (parse : string -> option json) (result : jsval) : Prop :=
  exists text items,
    content_text result = Some (JStr text) /\ parse text = Some (JArr items).

Definition is_sequence (v : json) : bool :=
  match v with
  | JArr _ => true
  | _ => false
  end.

(** [search] and [list] read as giving the empty sequence, and [recall]
    null, for every payload that is not of the documented shape. *)
Definition lenient_decoding (parse : string -> option json) (result : jsval) : Prop :=
  ~ payload_is_sequence parse result ->
  search_result parse result = JArr []
  /\ list_result parse result = JArr []
  /\ recall_result parse result = JNull.

(** A result whose text is the JSON of an object, not of a sequence. *)
Definition error_payload : jsval :=
  Some (JObj [("content",
               JArr [JObj [("text", JStr (JsonParser.lit "{'error':'boom'}"))]])]%string).

(** A result whose text is a number, not a string. *)
Definition number_payload : jsval :=
  Some (JObj [("content", JArr [JObj [("text", JNum 5)]])]%string).

(** ** More of the client's behaviour *)

(** What a response makes of the request it answers: the [if] on
    [response.error] in [handleData]; nothing when the error cannot be
    made. *)
Definition response_outcome (response : json) : option outcome :=
  if Js.truthy (Js.prop "error" response)
  then RejectedRemote <$> Js.new_Error (Js.opt_prop "message" (Js.prop "error" response))
  else Some (Resolved (Js.prop "result" response)).

(** The lines the [catch] of [handleData] has logged. *)
Definition is_failure (e : log_entry) : bool :=
  match e with
  | ParseFailure _ => true
  | ProcessExited => false
  end.

Definition failures (st : State) : nat :=
  length (List.filter is_failure (console st)).

(** The promises created are the pending, the settled and the lost ones,
    and no more are lost than lines were logged. *)
Definition balanced (st : State) : Prop :=
  (size (pendingRequests st) + length (settled st) <= promises st
   <= size (pendingRequests st) + length (settled st) + failures st)%nat.

(** A text [JSON.stringify] made, with its newline. *)
Definition request_line (text : string) : Prop :=
  exists v, text = (Js.stringify v ++ nl)%string.

(** The texts without their final newline. *)
Definition bodies (written : list string) : list string :=
  omap chop_newline written.

(** Whatever was written to the worker now held is a sequence of such
    texts. *)
Definition written_ok (st : State) : Prop :=
  forall written, process_stdin st = Some written -> Forall request_line written.

(** ** The callers of the client (extension.ts, recentProvider.ts) *)

Module Callers.

Local Open Scope string_scope.

(** [s.substring(0, n)] *)
Fixpoint substring0 (n : nat) (s : string) : string :=
  match n, s with
  | S n', String c s' => String c (substring0 n' s')
  | _, _ => EmptyString
  end.

(** [content.substring(0, n) + (content.length > n ? '...' : '')]: the
    label of a memory, with [n] 60 in the recent list and 80 in the quick
    pick of [searchMemory]. *)
Definition preview (n : nat) (content : string) : string :=
  substring0 n content ++ (if (n <? String.length content)%nat then "..." else EmptyString).

Definition recent_label : string -> string := preview 60.

Definition quickpick_label : string -> string := preview 80.

(** [[...new Set(l)]]: the elements in the order of their first
    occurrence. *)
Fixpoint dedupe_from (seen l : list string) : list string :=
  match l with
  | [] => []
  | x :: l' =>
      if bool_decide (x ∈ seen) then dedupe_from seen l'
      else x :: dedupe_from (x :: seen) l'
  end.

Definition dedupe (l : list string) : list string := dedupe_from [] l.

(** [tagsInput ? tagsInput.split(',').map(t => t.trim()).filter(t => t) : []],
    where [tagsInput] is absent when the input box was dismissed. *)
Definition tags_of_input (tagsInput : option string) : list string :=
  match tagsInput with
  | Some s =>
      if JsString.is_empty s then []
      else List.filter (fun t => negb (JsString.is_empty t))
             (List.map JsString.trim (JsString.split "," s))
  | None => []
  end.

(** [allTags] of [storeMemory]. *)
Definition allTags (defaultTags : list string) (tagsInput : option string)
  : list string :=
  dedupe (defaultTags ++ tags_of_input tagsInput).

(** [toLowerCase] on the code units modelled: A-Z and the capital letters
    of Latin-1. *)
Definition lower_unit (c : ascii) : ascii :=
  let n := N_of_ascii c in
  if ((65 <=? n) && (n <=? 90) || (192 <=? n) && (n <=? 214)
      || (216 <=? n) && (n <=? 222))%N
  then ascii_of_N (n + 32) else c.

Fixpoint toLowerCase (s : string) : string :=
  match s with
  | EmptyString => EmptyString
  | String c s' => String (lower_unit c) (toLowerCase s')
  end.

(** The own entries of [langMap]. *)
Definition langMap : list (string * string) :=
  [("ts", "typescript"); ("tsx", "typescriptreact"); ("js", "javascript");
   ("jsx", "javascriptreact"); ("py", "python"); ("rs", "rust"); ("go", "go");
   ("swift", "swift"); ("md", "markdown"); ("json", "json"); ("yaml", "yaml");
   ("yml", "yaml"); ("toml", "toml"); ("sh", "shellscript");
   ("bash", "shellscript")].

Fixpoint assoc (k : string) (m : list (string * string)) : option string :=
  match m with
  | [] => None
  | (k', v) :: m' => if String.eqb k' k then Some v else assoc k m'
  end.

(** What [langMap[key] || 'plaintext'] gives: a language name, or, for the
    two lower-case names every object answers through its prototype, the
    inherited value, which is no string. *)
Inductive language : Type :=
  | Language (name : string)
  | Inherited (key : string).

Definition inherited_key (k : string) : bool :=
  String.eqb k "constructor" || String.eqb k "__proto__".

Definition detectLanguage (source : string) : language :=
  let ext := toLowerCase <$> fst (JsString.pop (JsString.split "." source)) in
  let key := match ext with
             | Some e => e
             | None => EmptyString
             end in
  match assoc key langMap with
  | Some name => Language name
  | None => if inherited_key key then Inherited key else Language "plaintext"
  end.

End Callers.

(** * Properties *)

#[local] Arguments String.append !s1 s2 : simpl nomatch.

(** ** The model at work *)

Example parse_object :
  JsonParser.parse (JsonParser.lit "{'a':1, 'b':[true,null,'x\ny']}")
  = Some (JObj [("a", JNum 1);
                ("b", JArr [JBool true; JNull;
                            JStr (String "x" (String JsString.newline "y"))])]%string).
Proof. vm_compute. reflexivity. Qed.

Example parse_rejects :
  JsonParser.parse "not json" = None /\ JsonParser.parse "{" = None
  /\ JsonParser.parse "01" = None /\ JsonParser.parse "1 2" = None.
Proof. vm_compute. auto. Qed.

Example stringify_string :
  Js.stringify (JObj [("q", JStr (JsonParser.lit "a'b\c"))]%string)
  = JsonParser.lit "{'q':'a\'b\\c'}".
Proof. vm_compute. reflexivity. Qed.

Example handshake_then_search :
  let st := state_after JsonParser.parse
              [Connect true;
               Data (JsonParser.lit "{'jsonrpc':'2.0','id':1,'result':{}}" ++ nl);
               Call "tools/call" (JObj [])]%string
              (new_McpClient "python -m memory_mcp.server") in
  connected st = true /\ requestId st = 2
  /\ pendingRequests st = {[ 2 := 2%nat ]}
  /\ settled st = [(1%nat, Resolved (Some (JObj [])))]
  /\ timers st = [(1, 1%nat); (2, 2%nat)].
Proof. vm_compute. repeat split; reflexivity. Qed.

(** ** Framing *)

Module JsStringFacts.

Import JsString.
Local Open Scope string_scope.

Lemma append_empty_r (s : string) : s ++ EmptyString = s.
Proof. induction s as [|c s IH]; simpl; congruence. Qed.

Lemma append_assoc (a b c : string) : (a ++ b) ++ c = a ++ (b ++ c).
Proof. induction a as [|x a IH]; simpl; congruence. Qed.

Lemma contains_append (c : ascii) (a b : string) :
  contains c (a ++ b) = contains c a || contains c b.
Proof.
  induction a as [|x a IH]; simpl; [reflexivity |].
  rewrite IH. now rewrite orb_assoc.
Qed.

(** A split always ends in a segment free of the separator. *)
Lemma split_snoc (sep : ascii) (s : string) :
  exists segs seg, split sep s = (segs ++ [seg])%list
                   /\ contains sep seg = false
                   /\ Forall (fun l => contains sep l = false) segs.
Proof.
  induction s as [|c s (segs & seg & Hs & Hseg & Hsegs)]; simpl.
  - exists [], EmptyString. auto.
  - destruct (Ascii.eqb c sep) eqn:Hc.
    + exists (EmptyString :: segs), seg. rewrite Hs. repeat split; auto.
    + rewrite Hs. destruct segs as [|x segs]; simpl.
      * exists [], (String c seg). simpl. rewrite Hc. auto.
      * exists (String c x :: segs), seg. inversion Hsegs; subst.
        repeat split; auto. constructor; auto. simpl. now rewrite Hc.
Qed.

Lemma split_no_separator (sep : ascii) (s : string) :
  contains sep s = false -> split sep s = [s].
Proof.
  induction s as [|c s IH]; simpl; [reflexivity |].
  destruct (Ascii.eqb c sep); simpl; [discriminate |].
  intros H. now rewrite (IH H).
Qed.

(** Splitting a concatenation glues the last segment of the first part to
    the first segment of the second. *)
Lemma split_append (sep : ascii) (a b : string) segs seg h t :
  split sep a = (segs ++ [seg])%list ->
  split sep b = h :: t ->
  split sep (a ++ b) = (segs ++ (seg ++ h)%string :: t)%list.
Proof.
  revert segs seg. induction a as [|c a IH]; simpl; intros segs seg Ha Hb.
  - destruct segs as [|x [|y segs]]; simpl in Ha; inversion Ha; subst.
    simpl. exact Hb.
  - destruct (Ascii.eqb c sep).
    + destruct segs as [|x segs]; simpl in Ha.
      * inversion Ha as [[H1 H2]]. destruct (split_snoc sep a) as (l & r & E & _).
        rewrite E in H2. destruct l; discriminate.
      * inversion Ha as [[H1 H2]]. simpl. now rewrite (IH _ _ H2 Hb).
    + destruct (split_snoc sep a) as (l & r & E & _).
      rewrite E in Ha. rewrite (IH _ _ E Hb).
      destruct l as [|x l]; simpl in *.
      * destruct segs as [|y [|z segs]]; simpl in Ha; inversion Ha; subst.
        reflexivity.
      * destruct segs as [|y segs]; simpl in Ha.
        { inversion Ha as [[H1 H2]]. destruct l; discriminate. }
        inversion Ha as [[H1 H2]]. apply app_inj_tail in H2 as [-> ->].
        reflexivity.
Qed.

(** The segments joined by the separator give the string back. *)
Lemma split_join (sep : ascii) (s : string) segs seg :
  split sep s = (segs ++ [seg])%list ->
  s = concat (List.map (fun l => l ++ String sep EmptyString) segs) ++ seg.
Proof.
  revert segs seg. induction s as [|c s IH]; simpl; intros segs seg H.
  - destruct segs as [|x [|y segs]]; simpl in H; inversion H; reflexivity.
  - destruct (Ascii.eqb_spec c sep) as [->|Hne].
    + destruct segs as [|x segs]; simpl in H.
      * inversion H as [[H1 H2]]. destruct (split_snoc sep s) as (l & r & E & _).
        rewrite E in H2. destruct l; discriminate.
      * inversion H as [[H1 H2]]. simpl. now rewrite <- (IH _ _ H2).
    + destruct (split_snoc sep s) as (l & r & E & _).
      rewrite E in H. specialize (IH _ _ E).
      destruct l as [|x l]; simpl in *.
      * destruct segs as [|y [|z segs]]; simpl in H; inversion H; subst.
        reflexivity.
      * destruct segs as [|y segs]; simpl in H.
        { inversion H as [[H1 H2]]. destruct l; discriminate. }
        inversion H as [[H1 H2]]. apply app_inj_tail in H2 as [-> ->].
        simpl. now rewrite <- IH.
Qed.

Lemma pop_snoc {A : Type} (l : list A) (x : A) :
  pop (l ++ [x]) = (Some x, l).
Proof.
  unfold pop. rewrite List.removelast_last.
  rewrite List.map_app. simpl. now rewrite List.last_last.
Qed.

Lemma is_empty_id (s : string) :
  (if is_empty s then EmptyString else s) = s.
Proof. now destruct s. Qed.

End JsStringFacts.

Lemma frame_snoc (buffer data : string) segs seg :
  JsString.split JsString.newline (buffer ++ data)%string = segs ++ [seg] ->
  frame buffer data = (segs, seg).
Proof.
  intros H. unfold frame. rewrite H, JsStringFacts.pop_snoc.
  now rewrite JsStringFacts.is_empty_id.
Qed.

(** What [frame] returns: the complete lines in order, without their
    newline, and the unterminated rest. *)
Lemma frame_spec (buffer data : string) :
  exists lines rest,
    frame buffer data = (lines, rest)
    /\ JsString.split JsString.newline (buffer ++ data)%string = lines ++ [rest]
    /\ JsString.contains JsString.newline rest = false
    /\ Forall (fun l => JsString.contains JsString.newline l = false) lines.
Proof.
  destruct (JsStringFacts.split_snoc JsString.newline (buffer ++ data)%string)
    as (segs & seg & H & Hseg & Hsegs).
  exists segs, seg. split; [now apply frame_snoc | auto].
Qed.

(** Two reads frame like one read of both chunks. *)
Lemma frame_append (buffer d1 d2 : string) :
  frame buffer (d1 ++ d2)%string =
  let '(l1, r1) := frame buffer d1 in
  let '(l2, r2) := frame r1 d2 in
  (l1 ++ l2, r2).
Proof.
  destruct (frame_spec buffer d1) as (l1 & r1 & -> & S1 & Hr1 & _).
  destruct (frame_spec r1 d2) as (l2 & r2 & -> & S2 & _ & _).
  apply frame_snoc.
  destruct (JsStringFacts.split_snoc JsString.newline d2) as (t2 & s2 & E2 & _).
  assert (exists h t, JsString.split JsString.newline d2 = h :: t) as (h & t & Hd2).
  { rewrite E2. destruct t2; simpl; eauto. }
  rewrite <- JsStringFacts.append_assoc.
  rewrite (JsStringFacts.split_append _ _ _ _ _ _ _ S1 Hd2).
  assert (JsString.split JsString.newline (r1 ++ d2)%string = (r1 ++ h)%string :: t) as E.
  { apply (JsStringFacts.split_append _ r1 d2 [] r1 h t); [| exact Hd2].
    now apply JsStringFacts.split_no_separator. }
  rewrite E in S2. rewrite S2. now rewrite app_assoc.
Qed.

Lemma frame_nothing (buffer : string) :
  JsString.contains JsString.newline buffer = false ->
  frame buffer EmptyString = ([], buffer).
Proof.
  intros H. apply frame_snoc. rewrite JsStringFacts.append_empty_r.
  now apply JsStringFacts.split_no_separator.
Qed.

Lemma frame_rest_clean (buffer data : string) :
  JsString.contains JsString.newline (snd (frame buffer data)) = false.
Proof. destruct (frame_spec buffer data) as (l & r & -> & _ & H & _). exact H. Qed.

Lemma feed_all_frame (chunks : list string) (buffer : string) :
  JsString.contains JsString.newline buffer = false ->
  feed_all buffer chunks = frame buffer (JsString.concat chunks).
Proof.
  revert buffer. induction chunks as [|d chunks IH]; intros buffer Hb.
  - symmetry. now apply frame_nothing.
  - change (JsString.concat (d :: chunks))
      with (d ++ JsString.concat chunks)%string.
    rewrite frame_append. cbn [feed_all].
    pose proof (frame_rest_clean buffer d) as Hr.
    destruct (frame buffer d) as [l1 r1]. cbn [snd] in Hr.
    rewrite (IH r1 Hr). reflexivity.
Qed.

(** ** Well-formed client states *)

Lemma wf_new (cmd : string) : wf (new_McpClient cmd).
Proof.
  constructor;
    cbn [new_McpClient requestId promises pendingRequests timers settled].
  - reflexivity.
  - intros id p H. by rewrite lookup_empty in H.
  - intros id p H. by apply elem_of_nil in H.
  - constructor.
  - intros p H. by apply elem_of_nil in H.
  - constructor.
Qed.

Lemma increment_ge (n : Z) : n <= increment n.
Proof. unfold increment. destruct (n <? MAX_EXACT); lia. Qed.

Lemma increment_below (n : Z) :
  increment n < MAX_EXACT -> increment n = n + 1.
Proof.
  unfold increment. destruct (Z.ltb_spec n MAX_EXACT); [reflexivity | lia].
Qed.

(** *** What one response does *)

Lemma handleResponse_cases (response : json) (st : State) :
  (response = JNull /\ handleResponse response st = Abrupt st)
  \/ (response <> JNull /\ handleResponse response st = Normal st
      /\ forall id, Js.prop "id" response = Some (JNum id) ->
                    pendingRequests st !! id = None)
  \/ (exists id p o,
        Js.prop "id" response = Some (JNum id)
        /\ pendingRequests st !! id = Some p
        /\ o <> RejectedTimeout
        /\ handleResponse response st
           = Normal (settle p o
                       (with_pendingRequests (delete id (pendingRequests st)) st)))
  \/ (exists id p,
        Js.prop "id" response = Some (JNum id)
        /\ pendingRequests st !! id = Some p
        /\ handleResponse response st
           = Abrupt (with_pendingRequests (delete id (pendingRequests st)) st)).
Proof.
  destruct response as [| b | n | s | items | ms];
    [left; auto | | | | |];
    try (right; left; split; [discriminate |];
         split; [reflexivity | intros id; simpl; discriminate]).
  unfold handleResponse.
  destruct (Js.prop "id" (JObj ms)) as [[| b | id | s | items | ms']|] eqn:Hid;
    try (right; left; split; [discriminate |];
         split; [reflexivity | intros id'; discriminate]).
  destruct (pendingRequests st !! id) as [p|] eqn:Hp.
  - right; right.
    destruct (Js.truthy (Js.prop "error" (JObj ms))).
    + destruct (Js.new_Error _) as [message|].
      * left. exists id, p. eexists. repeat split; [exact Hp | discriminate].
      * right. exists id, p. repeat split. exact Hp.
    + left. exists id, p. eexists. repeat split; [exact Hp | discriminate].
  - right; left. repeat split; [discriminate |].
    intros id' [= <-]. exact Hp.
Qed.

Section ClientFacts.

Variable JSON_parse : string -> option json.

Lemma handle_line_cases (line : string) (st : State) :
  handle_line JSON_parse line st = st
  \/ handle_line JSON_parse line st = log_failure line st
  \/ (exists id p o,
        pendingRequests st !! id = Some p
        /\ o <> RejectedTimeout
        /\ handle_line JSON_parse line st
           = settle p o (with_pendingRequests (delete id (pendingRequests st)) st))
  \/ (exists id p,
        pendingRequests st !! id = Some p
        /\ handle_line JSON_parse line st
           = log_failure line
               (with_pendingRequests (delete id (pendingRequests st)) st)).
Proof.
  unfold handle_line. destruct (skipped line); [by left |].
  destruct (JSON_parse line) as [response|]; [| by right; left].
  destruct (handleResponse_cases response st)
    as [[_ ->] | [(_ & -> & _) | [(id & p & o & _ & Hp & Ho & ->)
                                | (id & p & _ & Hp & ->)]]].
  - by right; left.
  - by left.
  - right; right; left. by exists id, p, o.
  - right; right; right. by exists id, p.
Qed.

(** A property of states kept by logging, by settling a pending promise,
    by dropping a pending entry while logging, and by finishing a read is
    kept by [handleData]. *)
Lemma handleData_ind (P : State -> Prop) :
  (forall line st, P st -> P (log_failure line st)) ->
  (forall id p o st,
     P st -> pendingRequests st !! id = Some p -> o <> RejectedTimeout ->
     P (settle p o (with_pendingRequests (delete id (pendingRequests st)) st))) ->
  (forall id p line st,
     P st -> pendingRequests st !! id = Some p ->
     P (log_failure line
          (with_pendingRequests (delete id (pendingRequests st)) st))) ->
  (forall b st, P st -> P (with_buffer b st)) ->
  forall data st, P st -> P (handleData JSON_parse data st).
Proof.
  intros Hlog Hsettle Hdrop Hbuf data st HP. unfold handleData.
  destruct (frame (buffer st) data) as [lines rest].
  assert (P (with_buffer rest st)) as H by auto.
  revert H. generalize (with_buffer rest st). clear HP.
  induction lines as [|line lines IH]; intros s Hs; [exact Hs |].
  apply IH.
  destruct (handle_line_cases line s)
    as [-> | [-> | [(id & p & o & Hp & Ho & ->) | (id & p & Hp & ->)]]]; eauto.
Qed.

End ClientFacts.

(** ** Reads in pieces *)

Section Framing.

Variable JSON_parse : string -> option json.

Lemma with_buffer_id (st : State) : with_buffer (buffer st) st = st.
Proof. by destruct st. Qed.

Lemma handleResponse_with_buffer (response : json) (b : string) (st : State) :
  handleResponse response (with_buffer b st)
  = match handleResponse response st with
    | Normal st' => Normal (with_buffer b st')
    | Abrupt st' => Abrupt (with_buffer b st')
    end.
Proof.
  unfold handleResponse.
  destruct response as [| x | n | s | items | ms]; try reflexivity.
  destruct (Js.prop "id" (JObj ms)) as [[| x | id | s | items | ms']|];
    try reflexivity.
  fields. destruct (pendingRequests st !! id) as [p|]; [| reflexivity].
  unfold settle.
  destruct (Js.truthy (Js.prop "error" (JObj ms))); fields.
  - destruct (Js.new_Error _); reflexivity.
  - case_bool_decide; reflexivity.
Qed.

(** The loop over the lines neither reads nor writes the buffer. *)
Lemma handle_line_with_buffer (line b : string) (st : State) :
  handle_line JSON_parse line (with_buffer b st)
  = with_buffer b (handle_line JSON_parse line st).
Proof.
  unfold handle_line. destruct (skipped line); [reflexivity |].
  destruct (JSON_parse line) as [response|]; [| reflexivity].
  rewrite handleResponse_with_buffer.
  by destruct (handleResponse response st).
Qed.

Lemma handle_lines_with_buffer (lines : list string) (b : string) (st : State) :
  handle_lines JSON_parse lines (with_buffer b st)
  = with_buffer b (handle_lines JSON_parse lines st).
Proof.
  revert st. induction lines as [|line lines IH]; intros st; [reflexivity |].
  cbn [handle_lines fold_left]. rewrite handle_line_with_buffer. apply IH.
Qed.

Lemma handleData_frame (data : string) (st : State) :
  handleData JSON_parse data st
  = with_buffer (snd (frame (buffer st) data))
      (handle_lines JSON_parse (fst (frame (buffer st) data)) st).
Proof.
  unfold handleData. destruct (frame (buffer st) data) as [lines rest].
  apply handle_lines_with_buffer.
Qed.

(** Two reads do what one read of both chunks does. *)
Lemma handleData_append (d1 d2 : string) (st : State) :
  handleData JSON_parse (d1 ++ d2) st
  = handleData JSON_parse d2 (handleData JSON_parse d1 st).
Proof.
  rewrite (handleData_frame d2), !(handleData_frame _ st).
  rewrite frame_append.
  destruct (frame (buffer st) d1) as [l1 r1]. cbn [fst snd buffer with_buffer].
  destruct (frame r1 d2) as [l2 r2]. cbn [fst snd].
  rewrite handle_lines_with_buffer.
  unfold handle_lines. rewrite fold_left_app. reflexivity.
Qed.

Lemma handleData_chunks (chunks : list string) (st : State) :
  JsString.contains JsString.newline (buffer st) = false ->
  state_after JSON_parse (List.map Data chunks) st
  = handleData JSON_parse (JsString.concat chunks) st.
Proof.
  unfold state_after. revert st.
  induction chunks as [|d chunks IH]; intros st Hb.
  - rewrite handleData_frame. cbn [JsString.concat].
    rewrite (frame_nothing _ Hb). symmetry. apply with_buffer_id.
  - cbn [List.map JsString.concat]. rewrite handleData_append.
    change (run JSON_parse (Data d :: List.map Data chunks) st)
      with (let '(ids, st1) := ([], handleData JSON_parse d st) in
            let '(ids', st2) := run JSON_parse (List.map Data chunks) st1 in
            (ids ++ ids', st2)).
    cbn beta iota.
    destruct (run JSON_parse (List.map Data chunks) (handleData JSON_parse d st))
      as [ids st2] eqn:E.
    cbn [snd]. rewrite <- IH; [by rewrite E |].
    rewrite handleData_frame. apply frame_rest_clean.
Qed.

(** A blank line is passed over. *)
Lemma handle_line_skipped (line : string) (st : State) :
  skipped line = true -> handle_line JSON_parse line st = st.
Proof. intros H. unfold handle_line. by rewrite H. Qed.

(** X18. Split-read reassembly of decoded text: from a buffer holding no
    newline (as every buffer the client keeps), handing [handleData] the
    chunks of text one at a time gives the same complete lines, in the
    same order, and leaves the same unterminated rest in the buffer, as
    handing it their concatenation at once; the lines are exactly the
    newline-terminated pieces of the buffered text followed by the chunks,
    without the newline, and the rest is what follows the last newline;
    the client ends in the same state either way. *)
Theorem chunked_feed_same_lines (st : State) (chunks : list string) :
  JsString.contains JsString.newline (buffer st) = false ->
  feed_all (buffer st) chunks = frame (buffer st) (JsString.concat chunks)
  /\ (buffer st ++ JsString.concat chunks)%string
     = (JsString.concat (List.map (fun l => (l ++ nl)%string)
                           (fst (feed_all (buffer st) chunks)))
        ++ snd (feed_all (buffer st) chunks))%string
  /\ Forall (fun l => JsString.contains JsString.newline l = false)
       (fst (feed_all (buffer st) chunks))
  /\ JsString.contains JsString.newline (snd (feed_all (buffer st) chunks)) = false
  /\ state_after JSON_parse (List.map Data chunks) st
     = handleData JSON_parse (JsString.concat chunks) st
  /\ buffer (state_after JSON_parse (List.map Data chunks) st)
     = snd (feed_all (buffer st) chunks).
Proof.
  intros Hb. rewrite (handleData_chunks chunks st Hb).
  rewrite (feed_all_frame chunks (buffer st) Hb), handleData_frame.
  destruct (frame_spec (buffer st) (JsString.concat chunks))
    as (lines & rest & -> & Hs & Hrest & Hlines).
  cbn [fst snd buffer with_buffer].
  split; [reflexivity |]. split; [by apply JsStringFacts.split_join |].
  split; [exact Hlines |]. split; [exact Hrest |]. split; reflexivity.
Qed.

End Framing.

Lemma chunked_feed_same_lines_witness :
  feed_all (buffer (new_McpClient "worker"))
    ["{"; JsonParser.lit "'a':1}" ++ nl ++ JsonParser.lit "{'b'"; ":2}" ++ nl]%string
  = frame (buffer (new_McpClient "worker"))
      (JsString.concat
         ["{"; JsonParser.lit "'a':1}" ++ nl ++ JsonParser.lit "{'b'"; ":2}" ++ nl]%string)
  /\ fst (feed_all EmptyString
            ["{"; JsonParser.lit "'a':1}" ++ nl ++ JsonParser.lit "{'b'"; ":2}" ++ nl]%string)
     = [JsonParser.lit "{'a':1}"; JsonParser.lit "{'b':2}"]%string.
Proof.
  split.
  - apply (chunked_feed_same_lines JsonParser.parse (new_McpClient "worker")
             ["{"; JsonParser.lit "'a':1}" ++ nl ++ JsonParser.lit "{'b'"; ":2}" ++ nl]%string).
    reflexivity.
  - vm_compute. reflexivity.
Defined.

(** *** Reads as bytes *)

Lemma of_string_append (a b : string) :
  Utf16.of_string (a ++ b) = Utf16.of_string a ++ Utf16.of_string b.
Proof.
  unfold Utf16.of_string. induction a as [|c a IH]; [reflexivity |].
  cbn [String.append list_ascii_of_string List.map]. rewrite IH. reflexivity.
Qed.

Lemma newline_unit (c : ascii) :
  N.eqb (N_of_ascii c) Utf16.newline = Ascii.eqb c JsString.newline.
Proof.
  destruct (Ascii.eqb_spec c JsString.newline) as [-> | Hne]; [reflexivity |].
  apply N.eqb_neq. intros H. apply Hne.
  rewrite <- (ascii_N_embedding c), H. reflexivity.
Qed.

Lemma split_of_string (s : string) :
  Utf16.split Utf16.newline (Utf16.of_string s)
  = List.map Utf16.of_string (JsString.split JsString.newline s).
Proof.
  induction s as [|c s IH]; [reflexivity |].
  change (Utf16.of_string (String c s)) with (N_of_ascii c :: Utf16.of_string s).
  cbn [Utf16.split JsString.split]. rewrite newline_unit, IH.
  destruct (Ascii.eqb c JsString.newline); [reflexivity |].
  by destruct (JsString.split JsString.newline s).
Qed.

(** On text within 0xFF the framing of code units is [frame]. *)
Lemma frame_of_string (buffer data : string) :
  Utf16.frame (Utf16.of_string buffer) (Utf16.of_string data)
  = (List.map Utf16.of_string (fst (frame buffer data)),
     Utf16.of_string (snd (frame buffer data))).
Proof.
  destruct (frame_spec buffer data) as (lines & rest & -> & Hs & _).
  unfold Utf16.frame. rewrite <- of_string_append, split_of_string, Hs.
  rewrite List.map_app. cbn [List.map]. by rewrite JsStringFacts.pop_snoc.
Qed.

Lemma feed_all_of_string (chunks : list string) (buffer : string) :
  Utf16.feed_all (Utf16.of_string buffer) (List.map Utf16.of_string chunks)
  = (List.map Utf16.of_string (fst (feed_all buffer chunks)),
     Utf16.of_string (snd (feed_all buffer chunks))).
Proof.
  revert buffer. induction chunks as [|d chunks IH]; intros buffer; [reflexivity |].
  cbn [List.map Utf16.feed_all feed_all]. rewrite frame_of_string.
  destruct (frame buffer d) as [lines rest]. cbn [fst snd]. rewrite IH.
  destruct (feed_all rest chunks) as [more rest']. cbn [fst snd].
  by rewrite List.map_app.
Qed.

Lemma unit_of_byte (b : Byte.byte) : N_of_ascii (ascii_of_byte b) = Byte.to_N b.
Proof. destruct b; reflexivity. Qed.

(** The text of bytes below 0x80. *)
Lemma toString_ascii (data : list Byte.byte) :
  Forall (fun b => (Byte.to_N b < 128)%N) data ->
  Utf8.toString data
  = Utf16.of_string (string_of_list_ascii (List.map ascii_of_byte data)).
Proof.
  unfold Utf8.toString, Utf16.of_string. induction 1 as [|b data Hb _ IH]; [reflexivity |].
  cbn [List.map Utf8.decode_from string_of_list_ascii list_ascii_of_string].
  unfold Utf8.lead. rewrite (proj2 (N.leb_le _ 127)) by lia.
  cbn [List.flat_map]. rewrite IH. unfold Utf8.units.
  rewrite (proj2 (N.ltb_lt _ 65536)) by lia. by rewrite unit_of_byte.
Qed.

Lemma string_of_bytes_concat (reads : list (list Byte.byte)) :
  string_of_list_ascii (List.map ascii_of_byte (List.concat reads))
  = JsString.concat
      (List.map (fun data => string_of_list_ascii (List.map ascii_of_byte data)) reads).
Proof.
  induction reads as [|data reads IH]; [reflexivity |].
  cbn [List.concat List.map JsString.concat]. rewrite <- IH, List.map_app.
  generalize (List.map ascii_of_byte data) as l.
  generalize (List.map ascii_of_byte (List.concat reads)) as l'.
  intros l' l. induction l as [|c l IHl]; [reflexivity |].
  cbn [app string_of_list_ascii String.append]. by rewrite IHl.
Qed.

(** X19. On reads whose bytes are all below 0x80, where every byte is a
    character, the lines the listener frames do not depend on how the
    bytes are cut into reads: any number of reads gives the lines and the
    rest of one read of all the bytes. *)
Theorem ascii_reads_same_lines (reads : list (list Byte.byte)) :
  Forall (Forall (fun b => (Byte.to_N b < 128)%N)) reads ->
  Utf16.read_all reads = Utf16.read_all [List.concat reads].
Proof.
  intros Hreads. unfold Utf16.read_all.
  assert (List.map Utf8.toString reads
          = List.map Utf16.of_string
              (List.map (fun data => string_of_list_ascii
                                       (List.map ascii_of_byte data)) reads)) as ->.
  { rewrite List.map_map. induction Hreads as [|data reads Hd _ IH]; [reflexivity |].
    cbn [List.map]. by rewrite IH, (toString_ascii data Hd). }
  cbn [List.map]. rewrite toString_ascii by (by apply Forall_concat).
  rewrite string_of_bytes_concat.
  change (@nil N) with (Utf16.of_string EmptyString).
  rewrite feed_all_of_string.
  set (texts := List.map _ reads).
  change [Utf16.of_string (JsString.concat texts)]
    with (List.map Utf16.of_string [JsString.concat texts]).
  rewrite feed_all_of_string.
  rewrite (feed_all_frame texts EmptyString eq_refl).
  rewrite (feed_all_frame [JsString.concat texts] EmptyString eq_refl).
  cbn [JsString.concat]. by rewrite JsStringFacts.append_empty_r.
Qed.

(** C2, where the code departs from it.  The seven bytes of the line
    [{"é"}] and its newline arrive in two reads, cut between the two bytes
    of the letter.  Read at once they give that line.  Read in two pieces,
    each piece is decoded on its own: the first byte of the letter at the
    end of one read and the second at the start of the next each become
    U+FFFD, and the line handed on is another one. *)
Theorem split_character_changes_line :
  let whole := [Byte.x7b; Byte.x22; Byte.xc3; Byte.xa9; Byte.x22; Byte.x7d; Byte.x0a] in
  let head := [Byte.x7b; Byte.x22; Byte.xc3] in
  let tail := [Byte.xa9; Byte.x22; Byte.x7d; Byte.x0a] in
  whole = head ++ tail
  /\ Utf8.toString whole = [123; 34; 233; 34; 125; 10]%N
  /\ Utf8.toString head = [123; 34; 65533]%N
  /\ Utf8.toString tail = [65533; 34; 125; 10]%N
  /\ Utf16.read_all [whole] = ([[123; 34; 233; 34; 125]%N], [])
  /\ Utf16.read_all [head; tail] = ([[123; 34; 65533; 65533; 34; 125]%N], [])
  /\ fst (Utf16.read_all [head; tail]) <> fst (Utf16.read_all [whole]).
Proof.
  vm_compute. repeat split; try reflexivity. discriminate.
Qed.

Lemma ascii_reads_same_lines_witness :
  Utf16.read_all [[Byte.x7b]; [Byte.x7d; Byte.x0a; Byte.x5b]; [Byte.x5d; Byte.x0a]]
  = Utf16.read_all
      [List.concat [[Byte.x7b]; [Byte.x7d; Byte.x0a; Byte.x5b]; [Byte.x5d; Byte.x0a]]]
  /\ Utf16.read_all [[Byte.x7b]; [Byte.x7d; Byte.x0a; Byte.x5b]; [Byte.x5d; Byte.x0a]]
     = ([[123; 125]%N; [91; 93]%N], []).
Proof.
  split; [| vm_compute; reflexivity].
  apply (ascii_reads_same_lines
           [[Byte.x7b]; [Byte.x7d; Byte.x0a; Byte.x5b]; [Byte.x5d; Byte.x0a]]).
  repeat constructor.
Defined.

(** *** The counter *)

Lemma settle_frame (p : promise) (o : outcome) (st : State) :
  requestId (settle p o st) = requestId st
  /\ process (settle p o st) = process st
  /\ pendingRequests (settle p o st) = pendingRequests st
  /\ timers (settle p o st) = timers st
  /\ promises (settle p o st) = promises st
  /\ handshakes (settle p o st) = handshakes st
  /\ buffer (settle p o st) = buffer st
  /\ console (settle p o st) = console st
  /\ settled (settle p o st) = settled st ++ [(p, o)].
Proof.
  unfold settle. destruct o; try case_bool_decide; repeat split; reflexivity.
Qed.

Section CounterFacts.

Variable JSON_parse : string -> option json.

Lemma handleData_requestId (data : string) (st : State) :
  requestId (handleData JSON_parse data st) = requestId st.
Proof.
  apply (handleData_ind JSON_parse (fun s => requestId s = requestId st)); auto.
  intros id p o s Hs _ _.
  destruct (settle_frame p o (with_pendingRequests (delete id (pendingRequests s)) s))
    as (-> & _). exact Hs.
Qed.

Lemma handleData_process (data : string) (st : State) :
  process (handleData JSON_parse data st) = process st.
Proof.
  apply (handleData_ind JSON_parse (fun s => process s = process st)); auto.
  intros id p o s Hs _ _.
  destruct (settle_frame p o (with_pendingRequests (delete id (pendingRequests s)) s))
    as (_ & -> & _). exact Hs.
Qed.

Lemma fire_timer_frame (st : State) :
  requestId (fire_timer st) = requestId st
  /\ process (fire_timer st) = process st
  /\ promises (fire_timer st) = promises st.
Proof.
  unfold fire_timer. destruct (timers st) as [|[id p] ts]; [done |].
  unfold on_timeout. case_bool_decide; [| done].
  destruct (settle_frame p RejectedTimeout
              (with_pendingRequests
                 (delete id (pendingRequests (with_timers ts st)))
                 (with_timers ts st)))
    as (-> & -> & _ & _ & -> & _).
  done.
Qed.

Lemma call_cases (method : string) (params : json) (st : State) :
  (process_stdin st = None
   /\ call method params st = (Threw "Not connected to MCP server", st))
  \/ (exists child written,
        process st = Some child /\ stdin child = Some written
        /\ call method params st
           = (Pending (increment (requestId st)) (S (promises st)),
              with_timers (timers st ++ [(increment (requestId st), S (promises st))])
                (with_process
                   (Some {| pid := pid child;
                            stdin := Some (written ++
                              [(Js.stringify (request method params (increment (requestId st)))
                                ++ nl)%string]) |})
                   (with_pendingRequests
                      (<[increment (requestId st) := S (promises st)]> (pendingRequests st))
                      (with_promises (S (promises st))
                         (with_requestId (increment (requestId st)) st)))))).
Proof.
  unfold call, process_stdin.
  destruct (process st) as [child|]; [| by left].
  destruct (stdin child) as [written|] eqn:Hw; [| by left].
  right. by exists child, written.
Qed.

(** An event leaves the counter alone and assigns no id, or it assigns the
    incremented counter. *)
Lemma step_counter (e : event) (st : State) :
  (fst (step JSON_parse e st) = []
   /\ requestId (snd (step JSON_parse e st)) = requestId st)
  \/ (fst (step JSON_parse e st) = [increment (requestId st)]
      /\ requestId (snd (step JSON_parse e st)) = increment (requestId st)).
Proof.
  destruct e as [ok | m ps | chunk | | | |]; simpl.
  - unfold connect.
    destruct (connected st && bool_decide (is_Some (process st))); [by left |].
    unfold initialize.
    destruct (call_cases "initialize" initialize_params
                (with_spawned (S (spawned st))
                   (with_process
                      (Some {| pid := spawned st;
                               stdin := if ok then Some [] else None |}) st)))
      as [[_ ->] | (child & w & _ & _ & ->)]; [by left | by right].
  - destruct (call_cases m ps st) as [[_ ->] | (child & w & _ & _ & ->)];
      [by left | by right].
  - left. split; [done | apply handleData_requestId].
  - left. split; [done | apply fire_timer_frame].
  - by left.
  - by left.
  - left. split; [done |]. unfold disconnect. by destruct (process st).
Qed.

Lemma run_cons (e : event) (evs : list event) (st : State) :
  run JSON_parse (e :: evs) st
  = (fst (step JSON_parse e st) ++ fst (run JSON_parse evs (snd (step JSON_parse e st))),
     snd (run JSON_parse evs (snd (step JSON_parse e st)))).
Proof.
  cbn [run]. destruct (step JSON_parse e st) as [ids st1]. cbn [fst snd].
  by destruct (run JSON_parse evs st1).
Qed.

Lemma requests_cons (e : event) (evs : list event) :
  requests (e :: evs) = ((if may_request e then 1 else 0) + requests evs)%nat.
Proof. unfold requests. simpl. by destruct (may_request e). Qed.

Lemma step_no_request (e : event) (st : State) :
  may_request e = false ->
  fst (step JSON_parse e st) = []
  /\ requestId (snd (step JSON_parse e st)) = requestId st.
Proof.
  intros He. destruct (step_counter e st) as [H | [H _]]; [exact H |].
  destruct e; try discriminate; simpl in H; discriminate.
Qed.

(** While the counter stays in its exact range, the ids of a run are
    strictly increasing and above the counter the run started from. *)
Lemma run_ids_increasing (evs : list event) (st : State) :
  requestId st + Z.of_nat (requests evs) <= MAX_EXACT ->
  StronglySorted Z.lt (ids_assigned JSON_parse evs st)
  /\ Forall (fun id => requestId st < id
                       <= requestId (state_after JSON_parse evs st))
       (ids_assigned JSON_parse evs st)
  /\ requestId st <= requestId (state_after JSON_parse evs st)
     <= requestId st + Z.of_nat (requests evs).
Proof.
  unfold ids_assigned, state_after.
  revert st. induction evs as [|e evs IH]; intros st Hmax.
  - simpl. repeat split; try constructor; lia.
  - rewrite run_cons. cbn [fst snd]. rewrite requests_cons in Hmax.
    destruct (may_request e) eqn:He.
    + destruct (step_counter e st) as [[-> Hr] | [-> Hr]].
      * destruct (IH (snd (step JSON_parse e st))) as (Hs & Hf & Hb);
          [rewrite Hr; lia |].
        rewrite Hr in Hf, Hb. rewrite requests_cons, He.
        repeat split; try done; lia.
      * assert (increment (requestId st) = requestId st + 1) as Hinc.
        { unfold increment. destruct (Z.ltb_spec (requestId st) MAX_EXACT); lia. }
        rewrite Hinc in *.
        destruct (IH (snd (step JSON_parse e st))) as (Hs & Hf & Hb);
          [rewrite Hr; lia |].
        rewrite Hr in Hf, Hb. rewrite requests_cons, He.
        repeat split; try lia.
        -- simpl. constructor; [exact Hs |].
           eapply Forall_impl; [exact Hf |]. simpl. intros; lia.
        -- simpl. constructor; [lia |].
           eapply Forall_impl; [exact Hf |]. simpl. intros; lia.
    + destruct (step_no_request e st He) as [-> Hr].
      destruct (IH (snd (step JSON_parse e st))) as (Hs & Hf & Hb);
        [rewrite Hr; lia |].
      rewrite Hr in Hf, Hb. rewrite requests_cons, He.
      repeat split; try done; lia.
Qed.

End CounterFacts.

Lemma sorted_nodup (l : list Z) : StronglySorted Z.lt l -> NoDup l.
Proof.
  induction 1 as [|x l Hs IH Hx]; [constructor |].
  apply NoDup_cons_2; [| exact IH].
  intros Hin. rewrite Forall_forall in Hx. specialize (Hx x Hin). lia.
Qed.

Section Identifiers.

Variable JSON_parse : string -> option json.

Lemma step_same_connection (e : event) (st : State) :
  same_connection e = true ->
  is_Some (process_stdin st) ->
  is_Some (process_stdin (snd (step JSON_parse e st)))
  /\ length (fst (step JSON_parse e st)) = (if is_call e then 1 else 0)%nat.
Proof.
  intros He [w Hw]. destruct e as [ok | m ps | chunk | | | |];
    try discriminate; simpl.
  - destruct (call_cases m ps st) as [[Hn _] | (child & w' & Hc & Hw' & ->)];
      [congruence |].
    split; [| done]. by eexists.
  - split; [| done]. unfold process_stdin. rewrite handleData_process.
    fold (process_stdin st). by eexists.
  - split; [| done]. unfold process_stdin.
    destruct (fire_timer_frame st) as (_ & -> & _).
    fold (process_stdin st). by eexists.
  - split; [| done]. by eexists.
  - split; [| done]. by eexists.
Qed.

Lemma same_connection_requests (evs : list event) :
  Forall (fun e => same_connection e = true) evs ->
  requests evs = invocations evs.
Proof.
  unfold requests, invocations.
  induction 1 as [|e evs He _ IH]; [done |].
  destruct e; try discriminate; simpl; auto.
Qed.

Lemma same_connection_ids (evs : list event) (st : State) :
  Forall (fun e => same_connection e = true) evs ->
  is_Some (process_stdin st) ->
  length (ids_assigned JSON_parse evs st) = invocations evs.
Proof.
  unfold ids_assigned, invocations. intros Hevs. revert st.
  induction Hevs as [|e evs He _ IH]; intros st Hst; [done |].
  rewrite run_cons. cbn [fst]. rewrite length_app.
  destruct (step_same_connection e st He Hst) as [Hst' ->].
  rewrite (IH _ Hst'). simpl. by destruct (is_call e).
Qed.

(** C4. On one connection (the worker's input pipe is there, and the
    events are calls, reads, timers and process signals, with no connect or
    disconnect), while the counter stays within the integers a double
    counts exactly, every [call] invocation is assigned an id, the ids are
    strictly increasing in issuance order, pairwise distinct, above the
    counter the run starts from and at most the counter it ends with, hence
    above every id assigned before and below every id assigned after. *)
Theorem call_ids_unique_increasing (st : State) (evs : list event) :
  is_Some (process_stdin st) ->
  Forall (fun e => same_connection e = true) evs ->
  requestId st + Z.of_nat (invocations evs) <= MAX_EXACT ->
  length (ids_assigned JSON_parse evs st) = invocations evs
  /\ StronglySorted Z.lt (ids_assigned JSON_parse evs st)
  /\ NoDup (ids_assigned JSON_parse evs st)
  /\ Forall (fun id => requestId st < id
                       <= requestId (state_after JSON_parse evs st))
       (ids_assigned JSON_parse evs st).
Proof.
  intros Hst Hevs Hmax.
  rewrite <- (same_connection_requests evs Hevs) in Hmax.
  destruct (run_ids_increasing JSON_parse evs st Hmax) as (Hs & Hf & _).
  split; [by apply same_connection_ids |].
  split; [exact Hs |]. split; [by apply sorted_nodup | exact Hf].
Qed.

Lemma disconnect_requestId (st : State) :
  requestId (disconnect st) = requestId st.
Proof. unfold disconnect. by destruct (process st). Qed.

(** C10. Neither [disconnect] nor a later [connect] resets the counter:
    [disconnect] leaves it as it is, [connect] at most advances it by its
    handshake call; so over any run of one instance, connect and
    disconnect cycles included, the counter never decreases, and while it
    stays within the integers a double counts exactly the ids assigned are
    strictly increasing and no id is assigned twice. *)
Theorem ids_monotone_across_reconnects (st : State) (evs : list event) :
  requestId st + Z.of_nat (requests evs) <= MAX_EXACT ->
  requestId (disconnect st) = requestId st
  /\ (forall spawn_ok, requestId st <= requestId (snd (connect spawn_ok st)))
  /\ requestId st <= requestId (state_after JSON_parse evs st)
  /\ StronglySorted Z.lt (ids_assigned JSON_parse evs st)
  /\ NoDup (ids_assigned JSON_parse evs st)
  /\ Forall (fun id => requestId st < id
                       <= requestId (state_after JSON_parse evs st))
       (ids_assigned JSON_parse evs st).
Proof.
  intros Hmax.
  destruct (run_ids_increasing JSON_parse evs st Hmax) as (Hs & Hf & Hb).
  split; [apply disconnect_requestId |].
  split.
  { intros ok. pose proof (increment_ge (requestId st)).
    destruct (step_counter JSON_parse (Connect ok) st) as [[_ H1] | [_ H1]];
      simpl in H1; destruct (connect ok st) as [r st']; simpl in *; lia. }
  split; [lia |]. split; [exact Hs |]. split; [by apply sorted_nodup | exact Hf].
Qed.

End Identifiers.

Lemma call_ids_unique_increasing_witness :
  ids_assigned JsonParser.parse
    [Call "initialize" initialize_params; Data "noise"; Timer;
     Call "tools/call" (JObj []); Close; Call "tools/call" (JObj [])]%string
    (snd (connect true (new_McpClient "worker")))
  = [2; 3; 4]
  /\ NoDup (ids_assigned JsonParser.parse
       [Call "initialize" initialize_params; Data "noise"; Timer;
        Call "tools/call" (JObj []); Close; Call "tools/call" (JObj [])]%string
       (snd (connect true (new_McpClient "worker")))).
Proof.
  split; [vm_compute; reflexivity |].
  apply (call_ids_unique_increasing JsonParser.parse
           (snd (connect true (new_McpClient "worker")))
           [Call "initialize" initialize_params; Data "noise"; Timer;
            Call "tools/call" (JObj []); Close; Call "tools/call" (JObj [])]%string).
  - vm_compute. eauto.
  - repeat constructor.
  - vm_compute. discriminate.
Defined.

Lemma ids_monotone_across_reconnects_witness :
  ids_assigned JsonParser.parse
    [Connect true; Call "tools/call" (JObj []); Disconnect;
     Call "tools/call" (JObj []); Connect true; Call "tools/call" (JObj [])]%string
    (new_McpClient "worker")
  = [1; 2; 3; 4]
  /\ StronglySorted Z.lt (ids_assigned JsonParser.parse
       [Connect true; Call "tools/call" (JObj []); Disconnect;
        Call "tools/call" (JObj []); Connect true; Call "tools/call" (JObj [])]%string
       (new_McpClient "worker")).
Proof.
  split; [vm_compute; reflexivity |].
  apply (ids_monotone_across_reconnects JsonParser.parse
           (new_McpClient "worker")
           [Connect true; Call "tools/call" (JObj []); Disconnect;
            Call "tools/call" (JObj []); Connect true; Call "tools/call" (JObj [])]%string).
  vm_compute. discriminate.
Defined.

(** *** The invariant is kept *)

Lemma wf_ext (st st' : State) :
  requestId st' = requestId st ->
  promises st' = promises st ->
  pendingRequests st' = pendingRequests st ->
  timers st' = timers st ->
  settled st' = settled st ->
  wf st -> wf st'.
Proof.
  intros H1 H2 H3 H4 H5 [].
  constructor; rewrite ?H1, ?H2, ?H3, ?H4, ?H5; assumption.
Qed.

(** Settling a pending promise and dropping its entry. *)
Lemma wf_settle_pending (id : Z) (p : promise) (o : outcome) (st : State) :
  wf st ->
  pendingRequests st !! id = Some p ->
  wf (settle p o (with_pendingRequests (delete id (pendingRequests st)) st)).
Proof.
  intros Hwf Hp.
  destruct (settle_frame p o (with_pendingRequests (delete id (pendingRequests st)) st))
    as (E1 & _ & E3 & E4 & E5 & _ & _ & _ & E9).
  destruct (wf_pending st Hwf id p Hp) as (Hid & Htimer & Hfresh).
  constructor; rewrite ?E1, ?E3, ?E4, ?E5, ?E9; simpl.
  - apply (wf_counter st Hwf).
  - intros id' p' H'. apply lookup_delete_Some in H' as [Hne H'].
    destruct (wf_pending st Hwf id' p' H') as (Hid' & Ht' & Hf').
    repeat split; try done.
    rewrite fmap_app, elem_of_app. intros [Hin | Hin]; [done |].
    simpl in Hin. apply list_elem_of_singleton in Hin. subst p'. congruence.
  - apply (wf_timers st Hwf).
  - apply (wf_timers_nodup st Hwf).
  - intros q. rewrite fmap_app, elem_of_app. intros [Hin | Hin].
    + by apply (wf_settled st Hwf).
    + simpl in Hin. apply list_elem_of_singleton in Hin. subst q.
      by apply (wf_timers st Hwf id p).
  - rewrite fmap_app. simpl. apply NoDup_app. split; [apply (wf_settled_nodup st Hwf) |].
    split; [| apply NoDup_singleton].
    intros q Hq Hin. apply list_elem_of_singleton in Hin. by subst q.
Qed.

(** Dropping the entry of a pending request without settling it. *)
Lemma wf_drop_pending (id : Z) (st : State) :
  wf st -> wf (with_pendingRequests (delete id (pendingRequests st)) st).
Proof.
  intros [W1 W2 W3 W4 W5 W6]. constructor; fields; try done.
  intros id' p' H'. apply lookup_delete_Some in H' as [_ H']. by apply W2.
Qed.

(** What the oldest timer does when it fires. *)
Lemma fire_timer_cases (st : State) :
  (timers st = [] /\ fire_timer st = st)
  \/ (exists id p ts,
        timers st = (id, p) :: ts
        /\ ((pendingRequests st !! id = None /\ fire_timer st = with_timers ts st)
            \/ (is_Some (pendingRequests st !! id)
                /\ fire_timer st
                   = settle p RejectedTimeout
                       (with_pendingRequests (delete id (pendingRequests st))
                          (with_timers ts st))))).
Proof.
  unfold fire_timer. destruct (timers st) as [|[id p] ts]; [by left |].
  right. exists id, p, ts. split; [done |].
  unfold on_timeout. fields. case_bool_decide as H; [by right |].
  left. split; [| done].
  destruct (pendingRequests st !! id); [| done]. exfalso. apply H. by eexists.
Qed.

Lemma wf_fire_timer (st : State) : wf st -> wf (fire_timer st).
Proof.
  intros Hwf. unfold fire_timer.
  destruct (timers st) as [|[id p] ts] eqn:Hts; [done |].
  assert ((id, p) ∈ timers st) as Hin by (rewrite Hts; left).
  destruct (wf_timers st Hwf id p Hin) as [Hid Hp].
  pose proof (wf_timers_nodup st Hwf) as Hnd. rewrite Hts in Hnd.
  apply NoDup_cons in Hnd as [Hfresh Hnd].
  assert (forall id' q, pendingRequests st !! id' = Some q -> id' <> id ->
                        (id', q) ∈ ts) as Hrest.
  { intros id' q Hq Hne.
    destruct (wf_pending st Hwf id' q Hq) as (_ & Hin' & _).
    rewrite Hts in Hin'. apply elem_of_cons in Hin' as [[= ? ?] | ?]; [lia | done]. }
  unfold on_timeout. case_bool_decide as Hpend.
  - destruct Hpend as [q Hq].
    assert (q = p) as -> by (destruct (wf_pending st Hwf id q Hq) as (? & _); lia).
    assert (wf (settle p RejectedTimeout
                  (with_pendingRequests (delete id (pendingRequests st)) st))) as Hwf'
      by (by apply wf_settle_pending).
    destruct (settle_frame p RejectedTimeout
                (with_pendingRequests (delete id (pendingRequests st)) st))
      as (E1 & _ & E3 & E4 & E5 & _ & _ & _ & E9).
    destruct (settle_frame p RejectedTimeout
                (with_pendingRequests
                   (delete id (pendingRequests (with_timers ts st)))
                   (with_timers ts st)))
      as (F1 & _ & F3 & F4 & F5 & _ & _ & _ & F9).
    destruct Hwf' as [W1 W2 W3 W4 W5 W6].
    rewrite ?E1, ?E3, ?E4, ?E5, ?E9 in *. simpl in *.
    constructor; rewrite ?F1, ?F3, ?F4, ?F5, ?F9; simpl; try done.
    + intros id' q Hq'. destruct (W2 id' q Hq') as (? & ? & ?).
      repeat split; try done.
      apply lookup_delete_Some in Hq' as [Hne Hq']. by apply Hrest.
    + intros id' q Hq'. apply (wf_timers st Hwf). rewrite Hts. by right.
  - assert (pendingRequests st !! id = None) as Hnone.
    { destruct (pendingRequests st !! id) eqn:E; [| done].
      exfalso. apply Hpend. simpl. rewrite E. by eexists. }
    destruct Hwf as [W1 W2 W3 W4 W5 W6].
    constructor; fields; try done.
    + intros id' q Hq'. destruct (W2 id' q Hq') as (? & ? & ?).
      repeat split; try done. apply Hrest; [done |]. congruence.
    + intros id' q Hq'. apply W3. rewrite Hts. by right.
Qed.

Lemma wf_call (method : string) (params : json) (st : State) :
  wf st -> requestId st < MAX_EXACT -> wf (snd (call method params st)).
Proof.
  intros Hwf Hmax.
  destruct (call_cases method params st) as [[_ ->] | (child & w & _ & _ & ->)];
    [done |].
  assert (increment (requestId st) = Z.of_nat (S (promises st))) as Hinc.
  { unfold increment. destruct (Z.ltb_spec (requestId st) MAX_EXACT); [| lia].
    rewrite (wf_counter st Hwf). lia. }
  rewrite Hinc. destruct Hwf as [W1 W2 W3 W4 W5 W6].
  assert (forall id, (id, S (promises st)) ∉ timers st) as Hfresh.
  { intros id Hin. apply W3 in Hin. lia. }
  constructor; simpl.
  - done.
  - intros id p Hp. apply lookup_insert_Some in Hp as [[<- <-] | [Hne Hp]].
    + repeat split; [apply elem_of_app; right; by left |].
      intros Hin. apply W5 in Hin. lia.
    + destruct (W2 id p Hp) as (? & ? & ?).
      repeat split; [done | apply elem_of_app; by left | done].
  - intros id p Hin. apply elem_of_app in Hin as [Hin | Hin].
    + apply W3 in Hin. lia.
    + apply list_elem_of_singleton in Hin. inversion Hin; subst. lia.
  - apply NoDup_app. split; [done |]. split; [| apply NoDup_singleton].
    intros [id p] Hin Hin'. apply list_elem_of_singleton in Hin'.
    inversion Hin'; subst. by apply (Hfresh _ Hin).
  - intros p Hin. apply W5 in Hin. lia.
  - done.
Qed.

Lemma wf_connect (spawn_ok : bool) (st : State) :
  wf st -> requestId st < MAX_EXACT -> wf (snd (connect spawn_ok st)).
Proof.
  intros Hwf Hmax. unfold connect.
  destruct (connected st && bool_decide (is_Some (process st))); [done |].
  set (st1 := with_spawned _ _).
  assert (wf st1) as Hwf1 by (by apply (wf_ext st)).
  pose proof (wf_call "initialize" initialize_params st1 Hwf1 Hmax) as Hc.
  unfold initialize. destruct (call "initialize" initialize_params st1) as [[m | id p] st2];
    [done |].
  simpl in *. by apply (wf_ext st2).
Qed.

Lemma settled_unique (l : list (nat * outcome)) (p : nat) (o o' : outcome) :
  NoDup l.*1 -> (p, o) ∈ l -> (p, o') ∈ l -> o = o'.
Proof.
  induction l as [|[q x] l IH]; simpl; intros Hnd H1 H2.
  - by apply elem_of_nil in H1.
  - apply NoDup_cons in Hnd as [Hq Hnd].
    apply elem_of_cons in H1 as [H1 | H1];
      apply elem_of_cons in H2 as [H2 | H2].
    + congruence.
    + inversion H1; subst. exfalso. apply Hq.
      apply list_elem_of_fmap. by exists (q, o').
    + inversion H2; subst. exfalso. apply Hq.
      apply list_elem_of_fmap. by exists (q, o).
    + auto.
Qed.

Section Reachable.

Variable JSON_parse : string -> option json.

Lemma wf_handleData (data : string) (st : State) :
  wf st -> wf (handleData JSON_parse data st).
Proof.
  apply (handleData_ind JSON_parse wf).
  - intros line s Hs. by apply (wf_ext s).
  - intros id p o s Hs Hp _. by apply wf_settle_pending.
  - intros id p line s Hs _.
    apply (wf_ext (with_pendingRequests (delete id (pendingRequests s)) s));
      try done. by apply wf_drop_pending.
  - intros b s Hs. by apply (wf_ext s).
Qed.

Lemma wf_step (e : event) (st : State) :
  wf st ->
  requestId st + (if may_request e then 1 else 0) <= MAX_EXACT ->
  wf (snd (step JSON_parse e st)).
Proof.
  intros Hwf Hmax. destruct e as [ok | m ps | chunk | | | |]; simpl in *.
  - pose proof (wf_connect ok st Hwf) as H.
    destruct (connect ok st) as [r st']. apply H. lia.
  - pose proof (wf_call m ps st Hwf) as H.
    destruct (call m ps st) as [r st']. apply H. lia.
  - by apply wf_handleData.
  - by apply wf_fire_timer.
  - by apply (wf_ext st).
  - by apply (wf_ext st).
  - unfold disconnect. destruct (process st); [| done]. by apply (wf_ext st).
Qed.

Lemma step_requestId_le (e : event) (st : State) :
  requestId (snd (step JSON_parse e st))
  <= requestId st + (if may_request e then 1 else 0).
Proof.
  destruct (may_request e) eqn:He.
  - destruct (step_counter JSON_parse e st) as [[_ ->] | [_ ->]]; [lia |].
    unfold increment. destruct (requestId st <? MAX_EXACT); lia.
  - destruct (step_no_request JSON_parse e st He) as [_ ->]. lia.
Qed.

(** Every state of a run within the counter's exact range is well formed. *)
Lemma wf_run (evs : list event) (st : State) :
  wf st ->
  requestId st + Z.of_nat (requests evs) <= MAX_EXACT ->
  wf (state_after JSON_parse evs st).
Proof.
  unfold state_after. revert st.
  induction evs as [|e evs IH]; intros st Hwf Hmax; [done |].
  rewrite run_cons. cbn [snd]. rewrite requests_cons in Hmax.
  pose proof (step_requestId_le e st).
  apply IH.
  - apply wf_step; [done |]. destruct (may_request e); lia.
  - destruct (may_request e); lia.
Qed.

Lemma wf_reachable (cmd : string) (evs : list event) :
  Z.of_nat (requests evs) <= MAX_EXACT ->
  wf (state_after JSON_parse evs (new_McpClient cmd)).
Proof. intros H. apply wf_run; [apply wf_new | exact H]. Qed.

(** *** The log of settlements only grows *)

Lemma settled_handleData (data : string) (st : State) :
  settled st `prefix_of` settled (handleData JSON_parse data st).
Proof.
  apply (handleData_ind JSON_parse (fun s => settled st `prefix_of` settled s)); auto.
  intros id p o s Hs _ _.
  destruct (settle_frame p o (with_pendingRequests (delete id (pendingRequests s)) s))
    as (_ & _ & _ & _ & _ & _ & _ & _ & ->).
  fields. by apply prefix_app_r.
Qed.

Lemma settled_fire_timer (st : State) :
  settled (fire_timer st) = settled st
  \/ exists p, settled (fire_timer st) = settled st ++ [(p, RejectedTimeout)].
Proof.
  unfold fire_timer. destruct (timers st) as [|[id p] ts]; [by left |].
  unfold on_timeout. case_bool_decide; [| by left].
  right. exists p.
  by destruct (settle_frame p RejectedTimeout
                 (with_pendingRequests
                    (delete id (pendingRequests (with_timers ts st)))
                    (with_timers ts st)))
    as (_ & _ & _ & _ & _ & _ & _ & _ & ->).
Qed.

Lemma settled_step (e : event) (st : State) :
  settled st `prefix_of` settled (snd (step JSON_parse e st)).
Proof.
  destruct e as [ok | m ps | chunk | | | |]; simpl.
  - unfold connect.
    destruct (connected st && bool_decide (is_Some (process st))); [done |].
    unfold initialize.
    destruct (call_cases "initialize" initialize_params
                (with_spawned (S (spawned st))
                   (with_process
                      (Some {| pid := spawned st;
                               stdin := if ok then Some [] else None |}) st)))
      as [[_ ->] | (child & w & _ & _ & ->)]; done.
  - destruct (call_cases m ps st) as [[_ ->] | (child & w & _ & _ & ->)]; done.
  - apply settled_handleData.
  - destruct (settled_fire_timer st) as [-> | [p ->]]; [done |].
    by apply prefix_app_r.
  - done.
  - done.
  - unfold disconnect. by destruct (process st).
Qed.

Lemma settled_run (evs : list event) (st : State) :
  settled st `prefix_of` settled (state_after JSON_parse evs st).
Proof.
  unfold state_after. revert st. induction evs as [|e evs IH]; intros st; [done |].
  rewrite run_cons. cbn [snd].
  etrans; [apply (settled_step e) | apply IH].
Qed.

End Reachable.

(** ** Routing and timeouts *)

Section Routing.

Variable JSON_parse : string -> option json.

Lemma handleResponse_no_match (response : json) (st : State) :
  response <> JNull ->
  (forall id, Js.prop "id" response = Some (JNum id) ->
              pendingRequests st !! id = None) ->
  handleResponse response st = Normal st.
Proof.
  intros Hnull Hid.
  destruct (handleResponse_cases response st)
    as [[-> _] | [(_ & H & _) | [(id & p & o & Hi & Hp & _) | (id & p & Hi & Hp & _)]]];
    [done | done | |]; rewrite (Hid id Hi) in Hp; discriminate.
Qed.

(** C9. A decoded response envelope whose id is not in the pending set
    (not a number, or a number no pending request has) is discarded: the
    routing step ends without an error and leaves the whole state, the
    pending set with it, as it was; so does the line that carried it. *)
Theorem unknown_id_is_discarded (response : json) (st : State) :
  response <> JNull ->
  (forall id, Js.prop "id" response = Some (JNum id) ->
              pendingRequests st !! id = None) ->
  handleResponse response st = Normal st
  /\ forall line, JSON_parse line = Some response ->
                  handle_line JSON_parse line st = st.
Proof.
  intros Hnull Hid.
  pose proof (handleResponse_no_match response st Hnull Hid) as H.
  split; [exact H |].
  intros line Hline. unfold handle_line.
  destruct (skipped line); [done |]. by rewrite Hline, H.
Qed.

Lemma on_timeout_pending (id : Z) (p : nat) (st : State) :
  is_Some (pendingRequests st !! id) ->
  on_timeout (id, p) st
  = settle p RejectedTimeout
      (with_pendingRequests (delete id (pendingRequests st)) st).
Proof. intros H. unfold on_timeout. by rewrite bool_decide_eq_true_2. Qed.

Lemma on_timeout_absent (id : Z) (p : nat) (st : State) :
  pendingRequests st !! id = None -> on_timeout (id, p) st = st.
Proof.
  intros H. unfold on_timeout. rewrite bool_decide_eq_false_2; [done |].
  rewrite H. by intros [? ?].
Qed.

Lemma only_outcome (st st' : State) (p : nat) (o o' : outcome) :
  wf st' -> settled st `prefix_of` settled st' ->
  (p, o) ∈ settled st -> (p, o') ∈ settled st' -> o' = o.
Proof.
  intros Hwf [k Hk] Hin Hin'.
  apply (settled_unique (settled st') p); [apply (wf_settled_nodup st' Hwf) | done |].
  rewrite Hk. apply elem_of_app. by left.
Qed.

(** *** A response that settles, and one that only removes *)

Lemma response_outcome_settles (response : json) (o : outcome) :
  response_outcome response = Some o -> o <> RejectedTimeout.
Proof.
  unfold response_outcome. destruct (Js.truthy _).
  - destruct (Js.new_Error _) as [message|]; simpl; [| discriminate].
    intros H. apply (inj Some) in H. by subst o.
  - intros H. apply (inj Some) in H. by subst o.
Qed.

Lemma response_outcome_none (response : json) :
  response_outcome response = None
  <-> Js.truthy (Js.prop "error" response) = true
      /\ Js.new_Error (Js.opt_prop "message" (Js.prop "error" response)) = None.
Proof.
  unfold response_outcome. destruct (Js.truthy _).
  - destruct (Js.new_Error _) as [message|]; simpl; split; try done.
    by intros [_ ?].
  - split; [discriminate | by intros [? _]].
Qed.

Lemma handleResponse_match
    (response : json) (id : Z) (p : nat) (o : outcome) (st : State) :
  Js.prop "id" response = Some (JNum id) ->
  pendingRequests st !! id = Some p ->
  response_outcome response = Some o ->
  handleResponse response st
  = Normal (settle p o (with_pendingRequests (delete id (pendingRequests st)) st)).
Proof.
  intros Hid Hp Ho. unfold handleResponse, response_outcome in *.
  destruct response as [| x | n | s | items | ms]; try discriminate.
  rewrite Hid, Hp. destruct (Js.truthy _).
  - destruct (Js.new_Error _) as [message|]; simpl in Ho; [| discriminate].
    apply (inj Some) in Ho. by subst o.
  - apply (inj Some) in Ho. by subst o.
Qed.

Lemma handleResponse_throws
    (response : json) (id : Z) (p : nat) (st : State) :
  Js.prop "id" response = Some (JNum id) ->
  pendingRequests st !! id = Some p ->
  response_outcome response = None ->
  handleResponse response st
  = Abrupt (with_pendingRequests (delete id (pendingRequests st)) st).
Proof.
  intros Hid Hp Ho. unfold handleResponse, response_outcome in *.
  destruct response as [| x | n | s | items | ms]; try discriminate.
  rewrite Hid, Hp. destruct (Js.truthy _); [| discriminate].
  by destruct (Js.new_Error _).
Qed.

(** *** A stranded promise stays stranded *)

Lemma stranded_ext (p : nat) (st st' : State) :
  promises st' = promises st ->
  pendingRequests st' = pendingRequests st ->
  settled st' = settled st ->
  stranded p st -> stranded p st'.
Proof. unfold stranded. by intros -> -> ->. Qed.

Lemma stranded_drop (p : nat) (id : Z) (st : State) :
  stranded p st ->
  stranded p (with_pendingRequests (delete id (pendingRequests st)) st).
Proof.
  intros (Hr & Hp & Hs). repeat split; fields; try done; try lia.
  apply lookup_delete_None. by right.
Qed.

Lemma stranded_settle (p q : nat) (id : Z) (o : outcome) (st : State) :
  wf st -> pendingRequests st !! id = Some q ->
  stranded p st ->
  stranded p (settle q o (with_pendingRequests (delete id (pendingRequests st)) st)).
Proof.
  intros Hwf Hq (Hr & Hp & Hs).
  destruct (wf_pending st Hwf id q Hq) as (Hid & _ & _).
  assert (q <> p) as Hne by (intros ->; congruence).
  destruct (settle_frame q o (with_pendingRequests (delete id (pendingRequests st)) st))
    as (_ & _ & E3 & _ & E5 & _ & _ & _ & E9).
  unfold stranded. rewrite E3, E5, E9. fields.
  split; [done |]. split; [apply lookup_delete_None; by right |].
  rewrite fmap_app, elem_of_app. intros [Hin | Hin]; [done |].
  simpl in Hin. apply list_elem_of_singleton in Hin. congruence.
Qed.

Lemma stranded_handleData (p : nat) (data : string) (st : State) :
  wf st -> stranded p st -> stranded p (handleData JSON_parse data st).
Proof.
  intros Hwf Hs.
  apply (handleData_ind JSON_parse (fun s => wf s /\ stranded p s)); [| | | | done].
  - intros line s [H1 H2]. split; [by apply (wf_ext s) | by apply (stranded_ext p s)].
  - intros id q o s [H1 H2] Hq _.
    split; [by apply wf_settle_pending | by apply stranded_settle].
  - intros id q l s [H1 H2] _. split.
    + apply (wf_ext (with_pendingRequests (delete id (pendingRequests s)) s));
        try done. by apply wf_drop_pending.
    + apply (stranded_ext p (with_pendingRequests (delete id (pendingRequests s)) s));
        try done. by apply stranded_drop.
  - intros b s [H1 H2]. split; [by apply (wf_ext s) | by apply (stranded_ext p s)].
Qed.

Lemma stranded_fire_timer (p : nat) (st : State) :
  wf st -> stranded p st -> stranded p (fire_timer st).
Proof.
  intros Hwf (Hr & Hp & Hs).
  destruct (fire_timer_cases st)
    as [[_ ->] | (id & q & ts & Hts & [[_ ->] | [[q' Hq] ->]])]; [done | done |].
  assert ((id, q) ∈ timers st) as Hin by (rewrite Hts; left).
  destruct (wf_timers st Hwf id q Hin) as [Hid _].
  assert (q <> p) as Hne by (intros ->; rewrite Hid in Hq; congruence).
  destruct (settle_frame q RejectedTimeout
              (with_pendingRequests (delete id (pendingRequests st))
                 (with_timers ts st)))
    as (_ & _ & E3 & _ & E5 & _ & _ & _ & E9).
  unfold stranded. rewrite E3, E5, E9. fields.
  split; [done |]. split; [apply lookup_delete_None; by right |].
  rewrite fmap_app, elem_of_app. intros [H | H]; [done |].
  simpl in H. apply list_elem_of_singleton in H. congruence.
Qed.

Lemma stranded_call (p : nat) (method : string) (params : json) (st : State) :
  wf st -> requestId st < MAX_EXACT ->
  stranded p st -> stranded p (snd (call method params st)).
Proof.
  intros Hwf Hmax (Hr & Hp & Hs).
  destruct (call_cases method params st) as [[_ ->] | (child & w & _ & _ & ->)];
    [done |].
  assert (increment (requestId st) = Z.of_nat (S (promises st))) as Hinc.
  { unfold increment. destruct (Z.ltb_spec (requestId st) MAX_EXACT); [| lia].
    rewrite (wf_counter st Hwf). lia. }
  rewrite Hinc. unfold stranded. cbn [snd]. fields.
  split; [lia |]. split; [| done].
  rewrite lookup_insert_ne; [done | lia].
Qed.

Lemma stranded_step (p : nat) (e : event) (st : State) :
  wf st ->
  requestId st + (if may_request e then 1 else 0) <= MAX_EXACT ->
  stranded p st -> stranded p (snd (step JSON_parse e st)).
Proof.
  intros Hwf Hmax Hs. destruct e as [ok | m ps | chunk | | | |]; simpl in *.
  - unfold connect.
    destruct (connected st && bool_decide (is_Some (process st))); [done |].
    set (st1 := with_spawned _ _).
    assert (wf st1) as Hwf1 by (by apply (wf_ext st)).
    assert (stranded p st1) as Hs1 by (by apply (stranded_ext p st)).
    pose proof (stranded_call p "initialize" initialize_params st1 Hwf1) as Hc.
    unfold initialize.
    destruct (call "initialize" initialize_params st1) as [[m | id q] st2];
      cbn [snd] in *.
    + apply Hc; [unfold st1; fields; lia | done].
    + apply (stranded_ext p st2); try done.
      apply Hc; [unfold st1; fields; lia | done].
  - pose proof (stranded_call p m ps st Hwf) as Hc.
    destruct (call m ps st) as [r st']. apply Hc; [lia | done].
  - by apply stranded_handleData.
  - by apply stranded_fire_timer.
  - by apply (stranded_ext p st).
  - by apply (stranded_ext p st).
  - unfold disconnect. destruct (process st); [| done]. by apply (stranded_ext p st).
Qed.

Lemma stranded_run (p : nat) (evs : list event) (st : State) :
  wf st ->
  requestId st + Z.of_nat (requests evs) <= MAX_EXACT ->
  stranded p st -> stranded p (state_after JSON_parse evs st).
Proof.
  unfold state_after. revert st.
  induction evs as [|e evs IH]; intros st Hwf Hmax Hs; [done |].
  rewrite run_cons. cbn [snd]. rewrite requests_cons in Hmax.
  pose proof (step_requestId_le JSON_parse e st).
  apply IH.
  - apply wf_step; [done |]. destruct (may_request e); lia.
  - destruct (may_request e); lia.
  - apply stranded_step; [done | | done]. destruct (may_request e); lia.
Qed.

(** C3, where the code departs from it.  A request is pending in a state
    reached within the counter's exact range, and a line arrives whose
    response carries its id and a truthy error of which no Error can be
    made, the message having no string conversion.  The routing has by
    then removed the entry; the TypeError of [new Error] skips the
    [reject], and the [catch] logs the line.  So the promise is neither
    resolved nor rejected, its timer is still armed and does nothing when
    it fires, and whatever happens later the promise is never settled and
    its id never pending again: neither "resolved with the response" nor
    "timed out" happens. *)
Theorem unconvertible_error_strands_request
    (cmd : string) (evs : list event) (id : Z) (p : nat)
    (line : string) (response : json) :
  Z.of_nat (requests evs) <= MAX_EXACT ->
  pendingRequests (state_after JSON_parse evs (new_McpClient cmd)) !! id = Some p ->
  skipped line = false ->
  JSON_parse line = Some response ->
  Js.prop "id" response = Some (JNum id) ->
  Js.truthy (Js.prop "error" response) = true ->
  Js.new_Error (Js.opt_prop "message" (Js.prop "error" response)) = None ->
  let st := state_after JSON_parse evs (new_McpClient cmd) in
  let st1 := handle_line JSON_parse line st in
  pendingRequests st1 = delete id (pendingRequests st)
  /\ settled st1 = settled st
  /\ (p ∉ (settled st1).*1)
  /\ console st1 = console st ++ [ParseFailure line]
  /\ (id, p) ∈ timers st1
  /\ on_timeout (id, p) st1 = st1
  /\ (forall later,
        requestId st1 + Z.of_nat (requests later) <= MAX_EXACT ->
        (p ∉ (settled (state_after JSON_parse later st1)).*1)
        /\ pendingRequests (state_after JSON_parse later st1) !! id = None).
Proof.
  intros Hmax Hp Hskip Hline Hid Herr Hmsg st st1. fold st in Hp.
  assert (wf st) as Hwf by (by apply wf_reachable).
  destruct (wf_pending st Hwf id p Hp) as (Hidp & Htimer & Hfresh).
  destruct (wf_timers st Hwf id p Htimer) as [_ Hrange].
  assert (st1 = log_failure line
                  (with_pendingRequests (delete id (pendingRequests st)) st)) as E.
  { unfold st1, handle_line. rewrite Hskip, Hline.
    rewrite (handleResponse_throws response id p st Hid Hp); [done |].
    by apply response_outcome_none. }
  assert (wf st1) as Hwf1.
  { rewrite E. apply (wf_ext (with_pendingRequests (delete id (pendingRequests st)) st));
      try done. by apply wf_drop_pending. }
  assert (stranded p st1) as Hs1.
  { rewrite E. repeat split; fields; try done; try lia.
    rewrite <- Hidp. apply lookup_delete_eq. }
  split; [by rewrite E |]. split; [by rewrite E |].
  split; [by destruct Hs1 as (_ & _ & ?) |].
  split; [by rewrite E |]. split; [by rewrite E |].
  split; [apply on_timeout_absent; rewrite E; fields; apply lookup_delete_eq |].
  intros later Hlater.
  destruct (stranded_run p later st1 Hwf1 Hlater Hs1) as (_ & Hn & Hs).
  split; [exact Hs |]. by rewrite Hidp.
Qed.

(** X17. For a pending request of a client reached within the counter's
    exact range: its promise is unsettled and its timer armed.
    If the deadline comes first, the timer callback removes the entry and
    rejects the promise with the timeout error, a response carrying that id
    then changes nothing, and whatever happens later the promise has no
    other settlement.  If a response comes first that has no error, or an
    error that can be made, it removes the entry and settles the promise
    otherwise than by timeout, the timer callback then changes nothing, and
    whatever happens later the promise has no other settlement. *)
Theorem deadline_or_settling_response_once
    (cmd : string) (evs : list event) (id : Z) (p : nat) :
  Z.of_nat (requests evs) <= MAX_EXACT ->
  pendingRequests (state_after JSON_parse evs (new_McpClient cmd)) !! id = Some p ->
  let st := state_after JSON_parse evs (new_McpClient cmd) in
  ((p ∉ (settled st).*1) /\ (id, p) ∈ timers st /\ NoDup (settled st).*1)
  /\ (let st1 := on_timeout (id, p) st in
      pendingRequests st1 = delete id (pendingRequests st)
      /\ settled st1 = settled st ++ [(p, RejectedTimeout)]
      /\ (forall response, Js.prop "id" response = Some (JNum id) ->
                           handleResponse response st1 = Normal st1)
      /\ (forall later o,
            requestId st1 + Z.of_nat (requests later) <= MAX_EXACT ->
            (p, o) ∈ settled (state_after JSON_parse later st1) ->
            o = RejectedTimeout))
  /\ (forall response o,
        Js.prop "id" response = Some (JNum id) ->
        response_outcome response = Some o ->
        let st2 := settle p o
                     (with_pendingRequests (delete id (pendingRequests st)) st) in
        handleResponse response st = Normal st2
        /\ o <> RejectedTimeout
        /\ pendingRequests st2 = delete id (pendingRequests st)
        /\ settled st2 = settled st ++ [(p, o)]
        /\ on_timeout (id, p) st2 = st2
        /\ (forall later o',
              requestId st2 + Z.of_nat (requests later) <= MAX_EXACT ->
              (p, o') ∈ settled (state_after JSON_parse later st2) ->
              o' = o)).
Proof.
  intros Hmax Hp st. fold st in Hp.
  assert (wf st) as Hwf by (by apply wf_reachable).
  destruct (wf_pending st Hwf id p Hp) as (Hid & Htimer & Hfresh).
  split; [repeat split; try done; apply (wf_settled_nodup st Hwf) |].
  split.
  - intros st1. unfold st1. rewrite on_timeout_pending by (by eexists).
    assert (wf (settle p RejectedTimeout
                  (with_pendingRequests (delete id (pendingRequests st)) st))) as Hwf1
      by (by apply wf_settle_pending).
    destruct (settle_frame p RejectedTimeout
                (with_pendingRequests (delete id (pendingRequests st)) st))
      as (E1 & _ & E3 & _ & _ & _ & _ & _ & E9).
    split; [by rewrite E3 |]. split; [by rewrite E9 |]. split.
    + intros response Hr.
      apply handleResponse_no_match.
      * intros ->. simpl in Hr. discriminate.
      * intros id' Hr'. rewrite Hr in Hr'. inversion Hr'; subst id'.
        rewrite E3. fields. apply lookup_delete_eq.
    + intros later o Hlater Hin.
      eapply (only_outcome _ _ p RejectedTimeout o);
        [apply wf_run; [exact Hwf1 | exact Hlater] | apply settled_run | | exact Hin].
      rewrite E9. apply elem_of_app. right. by left.
  - intros response o Hr Ho st2.
    assert (wf st2) as Hwf2 by (by apply wf_settle_pending).
    destruct (settle_frame p o
                (with_pendingRequests (delete id (pendingRequests st)) st))
      as (E1 & _ & E3 & _ & _ & _ & _ & _ & E9).
    fold st2 in E1, E3, E9.
    split; [by apply handleResponse_match |].
    split; [by apply (response_outcome_settles response) |].
    split; [by rewrite E3 |]. split; [by rewrite E9 |]. split.
    + apply on_timeout_absent. rewrite E3. fields. apply lookup_delete_eq.
    + intros later o' Hlater Hin.
      eapply (only_outcome _ _ p o o');
        [apply wf_run; [exact Hwf2 | exact Hlater] | apply settled_run | | exact Hin].
      rewrite E9. apply elem_of_app. right. by left.
Qed.

End Routing.



Lemma unknown_id_is_discarded_witness :
  handleResponse
    (JObj [("jsonrpc", JStr "2.0"); ("id", JNum 7); ("result", JObj [])]%string)
    (snd (connect true (new_McpClient "worker")))
  = Normal (snd (connect true (new_McpClient "worker"))).
Proof.
  apply (unknown_id_is_discarded JsonParser.parse
           (JObj [("jsonrpc", JStr "2.0"); ("id", JNum 7); ("result", JObj [])]%string)
           (snd (connect true (new_McpClient "worker")))).
  - discriminate.
  - intros id H. vm_compute in H. inversion H; subst id. vm_compute. reflexivity.
Defined.

Lemma deadline_or_settling_response_once_witness :
  settled (on_timeout (2, 2%nat)
             (state_after JsonParser.parse
                [Connect true; Call "tools/call" (JObj [])]
                (new_McpClient "worker")))
  = settled (state_after JsonParser.parse
               [Connect true; Call "tools/call" (JObj [])]
               (new_McpClient "worker"))
    ++ [(2%nat, RejectedTimeout)].
Proof.
  apply (deadline_or_settling_response_once JsonParser.parse "worker"
           [Connect true; Call "tools/call" (JObj [])] 2 2%nat).
  - vm_compute. discriminate.
  - vm_compute. reflexivity.
Defined.

(** A request that is never settled: the worker answers the second
    request of a client with an error whose message is an object with a
    member named toString.  The read removes the entry, logs the line and settles nothing; when
    both timers have fired, the handshake has timed out and the second
    promise has no settlement at all. *)
Example stranded_by_error_message :
  let line := JsonParser.lit
    "{'jsonrpc':'2.0','id':2,'error':{'code':-32000,'message':{'toString':0}}}" in
  let st := state_after JsonParser.parse
              [Connect true; Call "tools/call" (JObj []);
               Data (line ++ nl)%string; Timer; Timer]
              (new_McpClient "worker") in
  Js.new_Error (Some (JObj [("toString", JNum 0)]%string)) = None
  /\ promises st = 2%nat
  /\ pendingRequests st = ∅
  /\ timers st = []
  /\ settled st = [(1%nat, RejectedTimeout)]
  /\ console st = [ParseFailure line].
Proof. vm_compute. repeat split; reflexivity. Qed.

Lemma unconvertible_error_strands_request_witness :
  let line := JsonParser.lit
    "{'jsonrpc':'2.0','id':2,'error':{'code':-32000,'message':{'toString':0}}}" in
  let st := state_after JsonParser.parse
              [Connect true; Call "tools/call" (JObj [])]
              (new_McpClient "worker") in
  let st1 := handle_line JsonParser.parse line st in
  pendingRequests st = {[ 1 := 1%nat; 2 := 2%nat ]}
  /\ pendingRequests st1 = delete 2 (pendingRequests st)
  /\ settled st1 = settled st
  /\ on_timeout (2, 2%nat) st1 = st1.
Proof.
  intros line st st1.
  split; [vm_compute; reflexivity |].
  assert (JsonParser.parse line
          = Some (JObj [("jsonrpc", JStr "2.0"); ("id", JNum 2);
                        ("error", JObj [("code", JNum (-32000));
                                        ("message", JObj [("toString", JNum 0)])])]%string))
    as Hline by (vm_compute; reflexivity).
  assert (pendingRequests st !! 2 = Some 2%nat) as Hp by (vm_compute; reflexivity).
  destruct (unconvertible_error_strands_request JsonParser.parse "worker"
              [Connect true; Call "tools/call" (JObj [])] 2 2%nat line _
              ltac:(vm_compute; discriminate) Hp eq_refl Hline eq_refl eq_refl eq_refl)
    as (H1 & H2 & _ & _ & _ & H6 & _).
  split; [exact H1 |]. split; [exact H2 | exact H6].
Defined.

(** ** Disconnecting *)

Section Disconnect.

Variable JSON_parse : string -> option json.

Lemma timers_fire_timer (st : State) :
  timers (fire_timer st) = tail (timers st).
Proof.
  unfold fire_timer. destruct (timers st) as [|[id p] ts] eqn:E; [by rewrite E |].
  unfold on_timeout. case_bool_decide; [| done].
  by destruct (settle_frame p RejectedTimeout
                 (with_pendingRequests
                    (delete id (pendingRequests (with_timers ts st)))
                    (with_timers ts st)))
    as (_ & _ & _ & -> & _).
Qed.

Lemma run_timers (n : nat) (st : State) :
  state_after JSON_parse (replicate n Timer) st = Nat.iter n fire_timer st.
Proof.
  unfold state_after. revert st. induction n as [|n IH]; intros st; [done |].
  cbn [replicate]. rewrite run_cons. cbn [snd step].
  rewrite IH. symmetry. apply Nat.iter_succ_r.
Qed.

(** Firing every armed timer leaves none armed and only adds timeout
    rejections, one for each request that was pending. *)
Lemma fire_all (n : nat) (st : State) :
  wf st -> n = length (timers st) ->
  wf (Nat.iter n fire_timer st)
  /\ timers (Nat.iter n fire_timer st) = []
  /\ promises (Nat.iter n fire_timer st) = promises st
  /\ exists ps, settled (Nat.iter n fire_timer st)
                = settled st ++ List.map (fun p => (p, RejectedTimeout)) ps
                /\ (forall id p, pendingRequests st !! id = Some p -> p ∈ ps)
                /\ (forall p, p ∈ ps -> pendingRequests st !! Z.of_nat p = Some p).
Proof.
  revert st. induction n as [|n IH]; intros st Hwf Hn.
  - simpl. assert (timers st = []) as Ht by (by destruct (timers st)).
    split; [done |]. split; [done |]. split; [done |].
    exists []. simpl. split; [by rewrite app_nil_r |].
    split; [| intros p Hp; by apply elem_of_nil in Hp].
    intros id p Hp. destruct (wf_pending st Hwf id p Hp) as (_ & Hin & _).
    rewrite Ht in Hin. by apply elem_of_nil in Hin.
  - rewrite Nat.iter_succ_r.
    destruct (IH (fire_timer st)) as (Hwf' & Ht & Hp & ps & Hs & Hps & Hsp).
    + by apply wf_fire_timer.
    + rewrite timers_fire_timer. destruct (timers st); simpl in *; lia.
    + split; [done |]. split; [done |]. split.
      * rewrite Hp. apply fire_timer_frame.
      * destruct (fire_timer_cases st)
          as [[Hnil _] | (id & q & ts & Hts & [[Hnone E] | [[q' Hq] E]])].
        -- rewrite Hnil in Hn. discriminate.
        -- rewrite E in Hs, Hps, Hsp |- *. exists ps. auto.
        -- assert ((id, q) ∈ timers st) as Hin by (rewrite Hts; left).
           destruct (wf_timers st Hwf id q Hin) as [Hid _].
           destruct (wf_pending st Hwf id q' Hq) as (Hid' & _ & _).
           assert (q' = q) as -> by lia.
           destruct (settle_frame q RejectedTimeout
                       (with_pendingRequests (delete id (pendingRequests st))
                          (with_timers ts st)))
             as (_ & _ & E3 & _ & _ & _ & _ & _ & E9).
           rewrite E in Hs, Hps, Hsp |- *. rewrite E9 in Hs.
           rewrite E3 in Hps, Hsp. fields.
           exists (q :: ps). split; [rewrite Hs; by rewrite <- app_assoc |].
           split.
           ++ intros id' p Hp'. destruct (decide (id' = id)) as [-> | Hne].
              ** rewrite Hq in Hp'. apply (inj Some) in Hp'. subst p. by left.
              ** right. apply (Hps id'). by rewrite lookup_delete_ne.
           ++ intros p Hin'. apply elem_of_cons in Hin' as [-> | Hin'].
              ** by rewrite <- Hid.
              ** apply Hsp in Hin'. by apply lookup_delete_Some in Hin' as [_ ?].
Qed.

(** C1, as the code has it.  In a state reached within the counter's
    exact range, [disconnect] kills the worker it holds and clears the
    handle and the connected flag, and without a worker it does nothing;
    it settles nothing and leaves the pending set, the timers and the
    counter as they were.  If nothing but the timers armed by then happens
    afterwards, then once they have fired the pending set is empty, each
    request that was pending at the disconnect has been rejected with the
    timeout error, and no promise has two settlements. *)
Theorem disconnect_leaves_pending_to_timers (cmd : string) (evs : list event) :
  Z.of_nat (requests evs) <= MAX_EXACT ->
  let st := state_after JSON_parse evs (new_McpClient cmd) in
  let st' := disconnect st in
  let st'' := state_after JSON_parse (replicate (length (timers st')) Timer) st' in
  process st' = None
  /\ (forall child, process st = Some child ->
                    killed st' = child :: killed st /\ connected st' = false)
  /\ (process st = None -> st' = st)
  /\ pendingRequests st' = pendingRequests st
  /\ settled st' = settled st
  /\ timers st' = timers st
  /\ requestId st' = requestId st
  /\ pendingRequests st'' = ∅
  /\ NoDup (settled st'').*1
  /\ forall id p, pendingRequests st !! id = Some p ->
                  (p ∉ (settled st').*1) /\ (p, RejectedTimeout) ∈ settled st''.
Proof.
  intros Hmax st st' st''.
  assert (wf st) as Hwf by (by apply wf_reachable).
  assert (pendingRequests st' = pendingRequests st /\ settled st' = settled st
          /\ timers st' = timers st /\ requestId st' = requestId st
          /\ promises st' = promises st) as (E1 & E2 & E3 & E4 & E5).
  { unfold st', disconnect. by destruct (process st). }
  assert (wf st') as Hwf' by (by apply (wf_ext st)).
  destruct (fire_all (length (timers st')) st' Hwf' eq_refl)
    as (Hwf'' & Ht & Hp & ps & Hs & Hps & _).
  rewrite <- run_timers in Hwf'', Ht, Hp, Hs. fold st'' in Hwf'', Ht, Hp, Hs.
  assert (pendingRequests st'' = ∅) as Hempty.
  { apply map_empty. intros id.
    destruct (pendingRequests st'' !! id) as [p|] eqn:E; [| done].
    destruct (wf_pending st'' Hwf'' id p E) as (_ & Hin & _).
    rewrite Ht in Hin. by apply elem_of_nil in Hin. }
  split; [unfold st', disconnect; by destruct (process st) eqn:E |].
  split; [intros child Hc; unfold st', disconnect; by rewrite Hc |].
  split; [intros Hc; unfold st', disconnect; by rewrite Hc |].
  repeat (split; [done |]). split; [apply (wf_settled_nodup st'' Hwf'') |].
  intros id p Hpend.
  destruct (wf_pending st Hwf id p Hpend) as (Hid & Htimer & Hfresh).
  split; [by rewrite E2 |].
  rewrite Hs. apply elem_of_app. right.
  apply list_elem_of_fmap. exists p. split; [done |].
  apply (Hps id). by rewrite E1.
Qed.

End Disconnect.

Example ready_with_search_state :
  connected ready_with_search = true
  /\ pendingRequests ready_with_search = {[ 2 := 2%nat ]}
  /\ settled ready_with_search = [(1%nat, Resolved (Some (JObj [])))].
Proof. vm_compute. repeat split; reflexivity. Qed.

(** C1 fails as stated: with a search pending on a ready client,
    [disconnect] leaves the request in the pending set and settles
    nothing. *)
Lemma disconnect_does_not_drain : ~ disconnect_drains ready_with_search.
Proof.
  intros [H _]. apply (f_equal (fun m => m !! 2)) in H.
  vm_compute in H. discriminate.
Qed.

Lemma disconnect_leaves_pending_to_timers_witness :
  let st := state_after JsonParser.parse
              [Connect true; Call "tools/call" (JObj [])]
              (new_McpClient "worker") in
  pendingRequests (disconnect st) = pendingRequests st
  /\ pendingRequests st = {[ 1 := 1%nat; 2 := 2%nat ]}.
Proof.
  split; [| vm_compute; reflexivity].
  apply (disconnect_leaves_pending_to_timers JsonParser.parse "worker"
           [Connect true; Call "tools/call" (JObj [])]).
  vm_compute. discriminate.
Defined.

(** ** The guard of [call] *)

(** C8 fails as stated: between the spawn and the handshake response the
    client is not ready, yet [call] assigns an id and writes the
    envelope. *)
Lemma call_passes_while_connecting : ~ call_needs_ready connecting_client.
Proof.
  intros H. destruct (H eq_refl "tools/call"%string (JObj [])) as (m & Hm & _).
  vm_compute in Hm. discriminate.
Qed.

Example connecting_search_written :
  connected connecting_client = false
  /\ fst (search "foo" None connecting_client) = Pending 2 2%nat
  /\ process_stdin (snd (search "foo" None connecting_client))
     = Some [(JsonParser.lit "{'jsonrpc':'2.0','method':'initialize','params':{'protocolVersion':'0.1.0','capabilities':{},'clientInfo':{'name':'caiide-memory','version':'0.1.0'}},'id':1}" ++ nl)%string;
             (JsonParser.lit "{'jsonrpc':'2.0','method':'tools/call','params':{'name':'memory_search','arguments':{'query':'foo','limit':20}},'id':2}" ++ nl)%string].
Proof. vm_compute. repeat split; reflexivity. Qed.

(** C8, as the code has it.  While the client holds no worker with an
    input pipe (before the first connect, after a disconnect, after a
    failed spawn), [call] and every typed method fail with the error
    'Not connected to MCP server' and leave the state as it was: no id is
    assigned, nothing is registered and nothing is written. *)
Theorem call_without_pipe_fails (st : State) (method : string) (params : json) :
  process_stdin st = None ->
  call method params st = (Threw "Not connected to MCP server", st)
  /\ (forall query limit,
        search query limit st = (Threw "Not connected to MCP server", st))
  /\ (forall content type source tags,
        store content type source tags st = (Threw "Not connected to MCP server", st))
  /\ (forall id, recall id st = (Threw "Not connected to MCP server", st))
  /\ (forall limit, list_memories limit st = (Threw "Not connected to MCP server", st))
  /\ getStats st = (Threw "Not connected to MCP server", st)
  /\ (forall id, delete_memory id st = (Threw "Not connected to MCP server", st)).
Proof.
  intros H.
  assert (forall m ps, call m ps st = (Threw "Not connected to MCP server", st)) as Hc.
  { intros m ps.
    destruct (call_cases m ps st) as [[_ E] | (c & w & Hc & Hw & _)];
      [exact E |].
    unfold process_stdin in H. rewrite Hc in H. congruence. }
  unfold search, store, recall, list_memories, getStats, delete_memory, tool_call.
  split; [apply Hc |]. split; [intros; apply Hc |]. split; [intros; apply Hc |].
  split; [intros; apply Hc |]. split; [intros; apply Hc |].
  split; [apply Hc | intros; apply Hc].
Qed.

Lemma call_without_pipe_fails_witness :
  call "tools/call" (JObj []) (disconnect ready_client)
  = (Threw "Not connected to MCP server", disconnect ready_client).
Proof.
  assert (process_stdin (disconnect ready_client) = None) as H
    by (vm_compute; reflexivity).
  exact (proj1 (call_without_pipe_fails (disconnect ready_client)
                  "tools/call" (JObj []) H)).
Defined.

(** With a pipe the call goes through, whatever [connected] says. *)
Lemma call_with_pipe_passes (st : State) (method : string) (params : json) :
  is_Some (process_stdin st) ->
  exists written,
    process_stdin st = Some written
    /\ fst (call method params st)
       = Pending (increment (requestId st)) (S (promises st))
    /\ process_stdin (snd (call method params st))
       = Some (written ++ [(Js.stringify (request method params (increment (requestId st)))
                            ++ nl)%string]).
Proof.
  intros [w Hw].
  destruct (call_cases method params st)
    as [[Hn _] | (c & w' & Hc & Hw' & ->)]; [congruence |].
  exists w'. unfold process_stdin in *. rewrite Hc in *. simpl. auto.
Qed.

(** ** The envelope of [search] *)

(** C7 fails as stated: the line [search("foo", 20)] writes on a ready
    client has method tools/call, carries the tool name and the arguments
    inside params, and is tagged jsonrpc, not protocol. *)
Lemma search_envelope_is_tools_call :
  last_written ready_with_search
  = Some (JsonParser.lit "{'jsonrpc':'2.0','method':'tools/call','params':{'name':'memory_search','arguments':{'query':'foo','limit':20}},'id':2}" ++ nl)%string
  /\ ~ spec_search_envelope "foo" 20
         (JsonParser.lit "{'jsonrpc':'2.0','method':'tools/call','params':{'name':'memory_search','arguments':{'query':'foo','limit':20}},'id':2}" ++ nl)%string.
Proof.
  split; [vm_compute; reflexivity |].
  intros (body & v & Hb & Hv & Hm & _).
  vm_compute in Hb. inversion Hb; subst body. clear Hb.
  vm_compute in Hv. inversion Hv; subst v. clear Hv.
  vm_compute in Hm. discriminate.
Qed.

Lemma json_ind' (P : json -> Prop) :
  P JNull -> (forall b, P (JBool b)) -> (forall n, P (JNum n)) ->
  (forall s, P (JStr s)) ->
  (forall items, Forall P items -> P (JArr items)) ->
  (forall ms, Forall (fun m => P (snd m)) ms -> P (JObj ms)) ->
  forall v, P v.
Proof.
  intros Hnull Hbool Hnum Hstr Harr Hobj.
  fix IH 1. intros [| b | n | s | items | ms].
  - exact Hnull.
  - apply Hbool.
  - apply Hnum.
  - apply Hstr.
  - apply Harr. induction items as [|x items IHitems]; constructor;
      [apply IH | exact IHitems].
  - apply Hobj. induction ms as [|[k x] ms IHms]; constructor;
      [apply IH | exact IHms].
Qed.

Module StringifyFacts.

Import JsString Js.
Local Open Scope string_scope.

Lemma clean_append (a b : string) : clean a -> clean b -> clean (a ++ b).
Proof. intros Ha Hb. by rewrite JsStringFacts.contains_append, Ha, Hb. Qed.

Lemma clean_join (sep : string) (l : list string) :
  clean sep -> Forall (fun s => clean s) l -> clean (join sep l).
Proof.
  intros Hsep. induction 1 as [|s l Hs Hl IH]; [done |].
  destruct l as [|s' l]; [exact Hs |].
  change (join sep (s :: s' :: l)) with (s ++ sep ++ join sep (s' :: l)).
  auto using clean_append.
Qed.

Lemma clean_escape_char (c : ascii) : clean (escape_char c).
Proof.
  destruct c as [[] [] [] [] [] [] [] []]; vm_compute; reflexivity.
Qed.

Lemma clean_escape (s : string) : clean (escape s).
Proof.
  induction s as [|c s IH]; [done |].
  change (escape (String c s)) with (escape_char c ++ escape s).
  auto using clean_append, clean_escape_char.
Qed.

Lemma clean_quote (s : string) : clean (quote s).
Proof.
  unfold quote. change (String dquote ?x) with (String dquote EmptyString ++ x).
  apply (clean_append (String dquote EmptyString)); [done |].
  apply clean_append; [apply clean_escape | done].
Qed.

Lemma clean_digit (n : N) : (n < 10)%N -> Ascii.eqb (digit n) newline = false.
Proof.
  intros H. unfold digit.
  destruct (Ascii.eqb_spec (ascii_of_N (48 + n)) newline) as [E|]; [| done].
  apply (f_equal N_of_ascii) in E.
  rewrite N_ascii_embedding in E by lia.
  change (N_of_ascii newline) with 10%N in E. lia.
Qed.

Lemma clean_digits_from (fuel : nat) (n : N) (acc : string) :
  clean acc -> clean (digits_from fuel n acc).
Proof.
  revert n acc. induction fuel as [|fuel IH]; intros n acc Hacc; [done |].
  cbn [digits_from].
  assert (clean (String (digit (n mod 10)) acc)) as H.
  { cbn [contains]. rewrite clean_digit, Hacc; [done |].
    apply N.mod_lt. lia. }
  destruct (n / 10 =? 0)%N; auto.
Qed.

Lemma clean_number (n : Z) : clean (number_to_string n).
Proof.
  destruct n as [| p | p]; [done | |]; cbn [number_to_string].
  - by apply clean_digits_from.
  - cbn [contains]. change (Ascii.eqb "-" newline) with false.
    by apply clean_digits_from.
Qed.

(** [JSON.stringify] never emits a raw newline. *)
Lemma clean_stringify (v : json) : clean (stringify v).
Proof.
  induction v as [| [] | n | s | items IH | ms IH] using json_ind';
    try done.
  - apply clean_number.
  - apply clean_quote.
  - cbn [stringify]. apply (clean_append "["); [done |].
    apply clean_append; [| done]. apply clean_join; [done |].
    by apply Forall_map.
  - cbn [stringify]. apply (clean_append "{"); [done |].
    apply clean_append; [| done]. apply clean_join; [done |].
    apply Forall_map. eapply Forall_impl; [exact IH |].
    intros [k x] Hx. simpl in *.
    apply clean_append; [apply clean_quote |]. by apply (clean_append ":").
Qed.

End StringifyFacts.

Lemma frame_one_line (s : string) :
  JsString.contains JsString.newline s = false ->
  frame EmptyString (s ++ nl) = ([s], EmptyString).
Proof.
  intros Hs. apply (frame_snoc _ _ [s] EmptyString).
  change (EmptyString ++ (s ++ nl))%string with (s ++ nl)%string.
  rewrite (JsStringFacts.split_append JsString.newline s nl [] s
             EmptyString [EmptyString]).
  - by rewrite JsStringFacts.append_empty_r.
  - by apply JsStringFacts.split_no_separator.
  - reflexivity.
Qed.

Section SearchEnvelope.

Variable JSON_parse : string -> option json.

(** The counter of a client stays within 0 .. 2^53. *)
Lemma requestId_range (cmd : string) (evs : list event) :
  0 <= requestId (state_after JSON_parse evs (new_McpClient cmd)) <= MAX_EXACT.
Proof.
  unfold state_after.
  assert (0 <= requestId (new_McpClient cmd) <= MAX_EXACT) as H
    by (cbn [new_McpClient requestId]; unfold MAX_EXACT; lia).
  revert H. generalize (new_McpClient cmd).
  induction evs as [|e evs IH]; intros st Hst; [exact Hst |].
  rewrite run_cons. cbn [snd]. apply IH.
  destruct (step_counter JSON_parse e st) as [[_ ->] | [_ ->]]; [exact Hst |].
  unfold increment. destruct (Z.ltb_spec (requestId st) MAX_EXACT); lia.
Qed.

(** C7, as the code has it.  On a ready client, [search(query, limit)]
    with an integer limit a double holds exactly appends to the worker's
    input exactly one text, the JSON of the object with jsonrpc "2.0",
    method "tools/call", params
    {name: "memory_search", arguments: {query, limit}} and the id just
    assigned, followed by a newline; the JSON holds no newline, so the text
    is one newline-terminated line; the id is the incremented counter,
    which is one more than the last id within the counter's exact range. *)
Theorem search_writes_tools_call
    (cmd : string) (evs : list event) (query : string) (limit : option Z)
    (child : ChildProcess) (written : list string) :
  let st := state_after JSON_parse evs (new_McpClient cmd) in
  process st = Some child -> stdin child = Some written -> connected st = true ->
  Z.abs (default 20 limit) <= MAX_EXACT ->
  let id := increment (requestId st) in
  let text := Js.stringify (search_request query limit id) in
  fst (search query limit st) = Pending id (S (promises st))
  /\ process_stdin (snd (search query limit st)) = Some (written ++ [(text ++ nl)%string])
  /\ requestId (snd (search query limit st)) = id
  /\ connected (snd (search query limit st)) = true
  /\ frame EmptyString (text ++ nl) = ([text], EmptyString)
  /\ 1 <= id <= MAX_EXACT
  /\ (requestId st < MAX_EXACT -> id = requestId st + 1).
Proof.
  intros st Hc Hw Hready Hlimit id text.
  unfold search, tool_call.
  destruct (call_cases "tools/call"
              (JObj [("name", JStr "memory_search");
                     ("arguments", JObj [("query", JStr query);
                                         ("limit", JNum (default 20 limit))])]%string) st)
    as [[Hn _] | (c & w & Hc' & Hw' & ->)].
  { unfold process_stdin in Hn. rewrite Hc in Hn. congruence. }
  rewrite Hc in Hc'. inversion Hc'; subst c. rewrite Hw in Hw'. inversion Hw'; subst w.
  split; [reflexivity |]. split; [reflexivity |]. split; [reflexivity |].
  split; [exact Hready |].
  split; [apply frame_one_line, StringifyFacts.clean_stringify |].
  pose proof (requestId_range cmd evs) as Hrange. fold st in Hrange.
  unfold id, increment.
  destruct (Z.ltb_spec (requestId st) MAX_EXACT); unfold MAX_EXACT in *;
    split; lia.
Qed.

End SearchEnvelope.

Lemma search_writes_tools_call_witness :
  let st := state_after JsonParser.parse
              [Connect true;
               Data (JsonParser.lit "{'jsonrpc':'2.0','id':1,'result':{}}" ++ nl)%string]
              (new_McpClient "python -m memory_mcp.server") in
  fst (search "foo" (Some 20) st)
  = Pending (increment (requestId st)) (S (promises st))
  /\ last_written (snd (search "foo" (Some 20) st))
     = Some (JsonParser.lit "{'jsonrpc':'2.0','method':'tools/call','params':{'name':'memory_search','arguments':{'query':'foo','limit':20}},'id':2}" ++ nl)%string.
Proof.
  intros st.
  assert (process st
          = Some {| pid := 0;
                    stdin := Some [(JsonParser.lit "{'jsonrpc':'2.0','method':'initialize','params':{'protocolVersion':'0.1.0','capabilities':{},'clientInfo':{'name':'caiide-memory','version':'0.1.0'}},'id':1}" ++ nl)%string] |}) as Hp
    by (vm_compute; reflexivity).
  assert (connected st = true) as Hr by (vm_compute; reflexivity).
  assert (Z.abs (default 20 (Some 20)) <= MAX_EXACT) as Hl
    by (vm_compute; discriminate).
  destruct (search_writes_tools_call JsonParser.parse
              "python -m memory_mcp.server"
              [Connect true;
               Data (JsonParser.lit "{'jsonrpc':'2.0','id':1,'result':{}}" ++ nl)%string]
              "foo" (Some 20) _ _ Hp eq_refl Hr Hl) as [H _].
  split; [exact H | vm_compute; reflexivity].
Defined.

(** ** A line that does not parse *)

Section MalformedLines.

Variable JSON_parse : string -> option json.

Lemma erase_handleResponse (response : json) (st : State) :
  match handleResponse response (erase_console st), handleResponse response st with
  | Normal a, Normal b | Abrupt a, Abrupt b => erase_console a = erase_console b
  | _, _ => False
  end.
Proof.
  unfold handleResponse, erase_console.
  destruct response as [| b | n | s | items | ms]; try reflexivity.
  destruct (Js.prop "id" (JObj ms)) as [[| b | id | s | items | ms']|];
    try reflexivity.
  fields. destruct (pendingRequests st !! id) as [p|]; [| reflexivity].
  unfold settle.
  destruct (Js.truthy (Js.prop "error" (JObj ms))); fields.
  - destruct (Js.new_Error _); reflexivity.
  - case_bool_decide; reflexivity.
Qed.

(** What a line does besides logging does not depend on the log. *)
Lemma erase_handle_line (line : string) (st : State) :
  erase_console (handle_line JSON_parse line (erase_console st))
  = erase_console (handle_line JSON_parse line st).
Proof.
  unfold handle_line. destruct (skipped line); [reflexivity |].
  destruct (JSON_parse line) as [response|]; [| reflexivity].
  pose proof (erase_handleResponse response st) as H.
  destruct (handleResponse response (erase_console st)) as [a | a],
           (handleResponse response st) as [b | b]; try done.
Qed.

Lemma erase_handle_lines (lines : list string) (a b : State) :
  erase_console a = erase_console b ->
  erase_console (handle_lines JSON_parse lines a)
  = erase_console (handle_lines JSON_parse lines b).
Proof.
  revert a b. induction lines as [|line lines IH]; intros a b Hab; [exact Hab |].
  cbn [handle_lines fold_left]. apply IH.
  rewrite <- (erase_handle_line line a), <- (erase_handle_line line b).
  by rewrite Hab.
Qed.

Lemma erase_handleData (data : string) (a b : State) :
  erase_console a = erase_console b ->
  erase_console (handleData JSON_parse data a)
  = erase_console (handleData JSON_parse data b).
Proof.
  intros Hab. unfold handleData.
  assert (buffer a = buffer b) as ->
    by (apply (f_equal buffer) in Hab; exact Hab).
  destruct (frame (buffer b) data) as [lines rest].
  apply erase_handle_lines.
  apply (f_equal (with_buffer rest)) in Hab. exact Hab.
Qed.

Lemma erase_reads (chunks : list string) (a b : State) :
  erase_console a = erase_console b ->
  erase_console (state_after JSON_parse (List.map Data chunks) a)
  = erase_console (state_after JSON_parse (List.map Data chunks) b).
Proof.
  unfold state_after. revert a b.
  induction chunks as [|d chunks IH]; intros a b Hab; [exact Hab |].
  cbn [List.map]. rewrite !run_cons. cbn [snd step].
  by apply IH, erase_handleData.
Qed.

Lemma console_handle_lines (lines : list string) (st : State) (x : log_entry) :
  x ∈ console st -> x ∈ console (handle_lines JSON_parse lines st).
Proof.
  revert st. induction lines as [|line lines IH]; intros st Hx; [exact Hx |].
  cbn [handle_lines fold_left]. apply IH.
  destruct (handle_line_cases JSON_parse line st)
    as [-> | [-> | [(id & p & o & _ & _ & ->) | (id & p & _ & ->)]]].
  - exact Hx.
  - fields. apply elem_of_app. by left.
  - by destruct (settle_frame p o
                   (with_pendingRequests (delete id (pendingRequests st)) st))
      as (_ & _ & _ & _ & _ & _ & _ & -> & _).
  - fields. apply elem_of_app. by left.
Qed.

Lemma handle_lines_app (l1 l2 : list string) (st : State) :
  handle_lines JSON_parse (l1 ++ l2) st
  = handle_lines JSON_parse l2 (handle_lines JSON_parse l1 st).
Proof. unfold handle_lines. apply fold_left_app. Qed.

(** C6. When a read yields a line that [JSON.parse] rejects, the failure
    is logged for that line, and nothing else differs from the same read
    without the line: the lines before and after it in the chunk, and the
    lines of every later chunk, are decoded and routed to the same pending
    requests with the same outcomes, and the pending set, the settlements
    and the buffer end up the same; no request is rejected on account of
    the line. *)
Theorem malformed_line_only_logged
    (st : State) (data : string) (before after : list string)
    (bad rest : string) (later : list string) :
  frame (buffer st) data = (before ++ bad :: after, rest) ->
  skipped bad = false ->
  JSON_parse bad = None ->
  let st_bad := handleData JSON_parse data st in
  let st_ref := handle_lines JSON_parse (before ++ after) (with_buffer rest st) in
  ParseFailure bad ∈ console st_bad
  /\ erase_console st_bad = erase_console st_ref
  /\ pendingRequests st_bad = pendingRequests st_ref
  /\ settled st_bad = settled st_ref
  /\ erase_console (state_after JSON_parse (List.map Data later) st_bad)
     = erase_console (state_after JSON_parse (List.map Data later) st_ref).
Proof.
  intros Hframe Hskip Hparse st_bad st_ref.
  assert (st_bad
          = handle_lines JSON_parse after
              (log_failure bad
                 (handle_lines JSON_parse before (with_buffer rest st)))) as Hbad.
  { unfold st_bad, handleData. rewrite Hframe, handle_lines_app.
    cbn [handle_lines fold_left]. unfold handle_line at 2.
    by rewrite Hskip, Hparse. }
  assert (erase_console st_bad = erase_console st_ref) as Herase.
  { rewrite Hbad. unfold st_ref. rewrite handle_lines_app.
    by apply erase_handle_lines. }
  split.
  { rewrite Hbad. apply console_handle_lines. fields.
    apply elem_of_app. right. by left. }
  split; [exact Herase |].
  split; [apply (f_equal pendingRequests) in Herase; exact Herase |].
  split; [apply (f_equal settled) in Herase; exact Herase |].
  by apply erase_reads.
Qed.

End MalformedLines.

Lemma malformed_line_only_logged_witness :
  let data := (JsonParser.lit "{'jsonrpc':'2.0','id':1,'result':{}}" ++ nl
               ++ "not json" ++ nl
               ++ JsonParser.lit "{'jsonrpc':'2.0','id':2,'result':{'content':[]}}"
               ++ nl)%string in
  let st := state_after JsonParser.parse
              [Connect true; Call "tools/call" (JObj [])]
              (new_McpClient "worker") in
  ParseFailure "not json" ∈ console (handleData JsonParser.parse data st)
  /\ settled (handleData JsonParser.parse data st)
     = [(1%nat, Resolved (Some (JObj [])));
        (2%nat, Resolved (Some (JObj [("content", JArr [])]%string)))].
Proof.
  intros data st. split; [| vm_compute; reflexivity].
  apply (malformed_line_only_logged JsonParser.parse st data
           [JsonParser.lit "{'jsonrpc':'2.0','id':1,'result':{}}"]
           [JsonParser.lit "{'jsonrpc':'2.0','id':2,'result':{'content':[]}}"]
           "not json" EmptyString []).
  - vm_compute. reflexivity.
  - vm_compute. reflexivity.
  - vm_compute. reflexivity.
Defined.

(** ** Decoding the result of a typed method *)

(** C5 fails as stated: a text that parses, but not to a sequence, is
    returned as parsed by [search], [list] and [recall]; so is a text that
    is not a string, once [JSON.parse] has turned it into one. *)
Lemma wrong_shape_is_returned :
  ~ lenient_decoding JsonParser.parse error_payload
  /\ search_result JsonParser.parse error_payload = JObj [("error", JStr "boom")]%string
  /\ is_sequence (list_result JsonParser.parse error_payload) = false
  /\ recall_result JsonParser.parse error_payload = JObj [("error", JStr "boom")]%string
  /\ ~ lenient_decoding JsonParser.parse number_payload
  /\ search_result JsonParser.parse number_payload = JNum 5.
Proof.
  split.
  { intros H. destruct H as (Hs & _).
    - intros (text & items & Ht & Hp).
      vm_compute in Ht. injection Ht as <-. vm_compute in Hp. discriminate.
    - vm_compute in Hs. discriminate. }
  split; [vm_compute; reflexivity |]. split; [vm_compute; reflexivity |].
  split; [vm_compute; reflexivity |]. split; [| vm_compute; reflexivity].
  intros H. destruct H as (Hs & _).
  - intros (text & items & Ht & Hp). vm_compute in Ht. discriminate.
  - vm_compute in Hs. discriminate.
Qed.

Section Decoding.

Variable JSON_parse : string -> option json.

(** C5, as the code has it.  When the text of the first content item is
    missing or falsy, or when [JSON.parse] throws on it, [search] and
    [list] return the empty sequence and [recall] returns null; nothing is
    thrown.  A truthy text that [JSON.parse] accepts is returned as parsed,
    whatever its shape. *)
Theorem undecodable_text_gives_default (result : jsval) :
  (Js.truthy (content_text result) = false
   \/ (exists text, content_text result = Some text
                    /\ JSON_parse_value JSON_parse text = None) ->
   search_result JSON_parse result = JArr []
   /\ list_result JSON_parse result = JArr []
   /\ recall_result JSON_parse result = JNull)
  /\ (forall text v,
        content_text result = Some text -> Js.truthy (Some text) = true ->
        JSON_parse_value JSON_parse text = Some v ->
        search_result JSON_parse result = v
        /\ list_result JSON_parse result = v
        /\ recall_result JSON_parse result = v).
Proof.
  unfold search_result, list_result, recall_result. split.
  - intros [H | (text & Ht & Hp)].
    + destruct (content_text result) as [text|]; [| done]. by rewrite H.
    + rewrite Ht, Hp. by destruct (Js.truthy (Some text)).
  - intros text v -> -> ->. done.
Qed.

End Decoding.

Lemma undecodable_text_gives_default_witness :
  search_result JsonParser.parse
    (Some (JObj [("content", JArr [JObj [("text", JStr "No results")]])]%string))
  = JArr []
  /\ search_result JsonParser.parse (Some (JObj [("content", JArr [])]%string))
     = JArr [].
Proof.
  split.
  - apply (proj1 (undecodable_text_gives_default JsonParser.parse
             (Some (JObj [("content", JArr [JObj [("text", JStr "No results")]])]%string)))).
    right. exists (JStr "No results"). split; vm_compute; reflexivity.
  - apply (proj1 (undecodable_text_gives_default JsonParser.parse
             (Some (JObj [("content", JArr [])]%string)))).
    left. vm_compute. reflexivity.
Defined.

(** A text that is no string is converted first; one that has no
    conversion makes [JSON.parse] throw like one that does not parse. *)
Example text_without_conversion :
  search_result JsonParser.parse
    (Some (JObj [("content",
                  JArr [JObj [("text", JArr [JObj [("toString", JNum 1)]])]])]%string))
  = JArr []
  /\ getStats_result JsonParser.parse
       (Some (JObj [("content",
                     JArr [JObj [("text", JArr [JObj [("toString", JNum 1)]])]])]%string))
     = None
  /\ Js.to_string (JArr [JNum 1; JNull; JObj []; JArr [JStr "a"; JBool true]]%string)
     = Some "1,,[object Object],a,true"%string.
Proof. vm_compute. repeat split; reflexivity. Qed.

(** The end-to-end case of the specification: the worker's answer to
    [search("foo", 20)] resolves the call, and the result decodes to a
    one-element sequence. *)
Example search_end_to_end :
  settled (handleData JsonParser.parse
             (JsonParser.lit "{'jsonrpc':'2.0','id':2,'result':{'content':[{'text':'[{\'id\':\'1\',\'content\':\'foo\',\'doc_type\':\'note\',\'source\':\'x\'}]'}]}}" ++ nl)
             ready_with_search)
  = [(1%nat, Resolved (Some (JObj [])));
     (2%nat, Resolved (Some (JObj [("content", JArr [JObj [("text",
        JStr (JsonParser.lit "[{'id':'1','content':'foo','doc_type':'note','source':'x'}]"))]])]%string)))]
  /\ search_result JsonParser.parse
       (Some (JObj [("content", JArr [JObj [("text",
          JStr (JsonParser.lit "[{'id':'1','content':'foo','doc_type':'note','source':'x'}]"))]])]%string))
     = JArr [JObj [("id", JStr "1"); ("content", JStr "foo");
                   ("doc_type", JStr "note"); ("source", JStr "x")]]%string.
Proof. split; vm_compute; reflexivity. Qed.

(** * More properties of the client *)

(** ** What becomes of every call *)

Section Accounting.

Variable JSON_parse : string -> option json.

Lemma failures_log (line : string) (st : State) :
  failures (log_failure line st) = S (failures st).
Proof.
  unfold failures. fields. rewrite List.filter_app, length_app. simpl. lia.
Qed.

Lemma size_delete_pending (id : Z) (st : State) :
  is_Some (pendingRequests st !! id) ->
  S (size (delete id (pendingRequests st))) = size (pendingRequests st).
Proof.
  intros Hp.
  pose proof (map_size_delete_Some id (pendingRequests st) Hp) as Hd.
  assert (size (pendingRequests st) <> 0%nat) as Hne.
  { intros H0. apply map_size_empty_inv in H0. destruct Hp as [q Hq].
    rewrite H0, lookup_empty in Hq. discriminate. }
  lia.
Qed.

Lemma balanced_settle_pending (id : Z) (p : nat) (o : outcome) (st : State) :
  is_Some (pendingRequests st !! id) ->
  balanced st ->
  balanced (settle p o (with_pendingRequests (delete id (pendingRequests st)) st)).
Proof.
  intros Hp Hb.
  destruct (settle_frame p o (with_pendingRequests (delete id (pendingRequests st)) st))
    as (_ & _ & E3 & _ & E5 & _ & _ & E8 & E9).
  unfold balanced, failures in *. rewrite E3, E5, E8, E9. fields.
  rewrite length_app. simpl.
  pose proof (size_delete_pending id st Hp). lia.
Qed.

Lemma balanced_drop_logged (id : Z) (line : string) (st : State) :
  is_Some (pendingRequests st !! id) ->
  balanced st ->
  balanced (log_failure line
              (with_pendingRequests (delete id (pendingRequests st)) st)).
Proof.
  intros Hp Hb. unfold balanced in *. rewrite failures_log.
  unfold failures in *. fields.
  pose proof (size_delete_pending id st Hp). lia.
Qed.

Lemma balanced_call (method : string) (params : json) (st : State) :
  wf st -> requestId st < MAX_EXACT ->
  balanced st -> balanced (snd (call method params st)).
Proof.
  intros Hs Hlt Hb.
  destruct (call_cases method params st) as [[_ ->] | (child & w & _ & _ & ->)];
    [done |].
  unfold balanced, failures in *. cbn [snd]. fields.
  assert (increment (requestId st) = Z.of_nat (S (promises st))) as Hinc.
  { unfold increment. destruct (Z.ltb_spec (requestId st) MAX_EXACT); [| lia].
    rewrite (wf_counter st Hs). lia. }
  rewrite map_size_insert_None; [lia |].
  destruct (pendingRequests st !! increment (requestId st)) as [q|] eqn:E; [| done].
  destruct (wf_pending st Hs _ _ E) as (Hq & Hin & _).
  apply (wf_timers st Hs) in Hin. lia.
Qed.

Lemma balanced_step (e : event) (st : State) :
  wf st ->
  requestId st + (if may_request e then 1 else 0) <= MAX_EXACT ->
  balanced st -> balanced (snd (step JSON_parse e st)).
Proof.
  intros Hwf Hmax Hb.
  destruct e as [ok | m ps | chunk | | | |]; simpl in *.
  - unfold connect.
    destruct (connected st && bool_decide (is_Some (process st))); [done |].
    set (st1 := with_spawned _ _).
    assert (wf st1) as Hwf1 by (by apply (wf_ext st)).
    pose proof (balanced_call "initialize" initialize_params st1 Hwf1) as Hcall.
    unfold initialize.
    destruct (call "initialize" initialize_params st1) as [[m | id p] st2];
      cbn [snd] in *; apply Hcall; try done; unfold st1; fields; lia.
  - pose proof (balanced_call m ps st Hwf) as Hcall.
    destruct (call m ps st) as [r st']. apply Hcall; [lia | done].
  - apply (handleData_ind JSON_parse balanced); [| | | done | done].
    + intros line s Hs. unfold balanced in *. rewrite failures_log.
      unfold failures in *. fields. lia.
    + intros id p o s Hs Hp _. apply balanced_settle_pending; [by eexists | done].
    + intros id p line s Hs Hp. apply balanced_drop_logged; [by eexists | done].
  - unfold fire_timer. destruct (timers st) as [|[id p] ts]; [done |].
    unfold on_timeout. case_bool_decide as Hpend; [| done].
    by apply (balanced_settle_pending id p RejectedTimeout (with_timers ts st)).
  - unfold balanced, failures in *. fields.
    rewrite List.filter_app, length_app. simpl. lia.
  - done.
  - unfold disconnect. by destruct (process st).
Qed.

Lemma balanced_run (evs : list event) (st : State) :
  wf st ->
  requestId st + Z.of_nat (requests evs) <= MAX_EXACT ->
  balanced st -> balanced (state_after JSON_parse evs st).
Proof.
  unfold state_after. revert st.
  induction evs as [|e evs IH]; intros st Hwf Hmax Hb; [done |].
  rewrite run_cons. cbn [snd]. rewrite requests_cons in Hmax.
  pose proof (step_requestId_le JSON_parse e st).
  apply IH.
  - apply wf_step; [done |]. destruct (may_request e); lia.
  - destruct (may_request e); lia.
  - apply balanced_step; [done | | done]. destruct (may_request e); lia.
Qed.

(** X1. No request is answered twice, and the lost ones are logged: in
    every state reached within the counter's exact range, no promise is
    settled twice and no pending entry belongs to a settled promise; every
    promise [call] has created is pending, settled or stranded (neither,
    for good); and the promises that are neither pending nor settled are
    no more than the lines the [catch] has logged, so that as long as
    nothing is logged the pending and the settled promises are all the
    promises there are. *)
Theorem calls_are_pending_settled_or_logged (cmd : string) (evs : list event) :
  Z.of_nat (requests evs) <= MAX_EXACT ->
  let st := state_after JSON_parse evs (new_McpClient cmd) in
  (size (pendingRequests st) + length (settled st) <= promises st
   <= size (pendingRequests st) + length (settled st) + failures st)%nat
  /\ (failures st = 0%nat ->
      (size (pendingRequests st) + length (settled st))%nat = promises st)
  /\ NoDup (settled st).*1
  /\ (forall id p, pendingRequests st !! id = Some p ->
                   id = Z.of_nat p /\ (id, p) ∈ timers st /\ p ∉ (settled st).*1)
  /\ (forall p, (1 <= p <= promises st)%nat ->
                pendingRequests st !! Z.of_nat p = Some p
                \/ p ∈ (settled st).*1
                \/ stranded p st).
Proof.
  intros Hmax st.
  assert (wf st) as Hwf by (by apply wf_reachable).
  assert (balanced st) as Hb.
  { apply balanced_run; [apply wf_new | exact Hmax |].
    unfold balanced, failures. cbn [new_McpClient pendingRequests settled promises console].
    rewrite map_size_empty. simpl. lia. }
  split; [exact Hb |].
  split; [intros H0; unfold balanced in Hb; lia |].
  split; [apply (wf_settled_nodup st Hwf) |].
  split; [apply (wf_pending st Hwf) |].
  intros p Hrange.
  destruct (pendingRequests st !! Z.of_nat p) as [q|] eqn:E.
  - left. destruct (wf_pending st Hwf _ _ E) as (Hq & _ & _).
    f_equal. lia.
  - destruct (decide (p ∈ (settled st).*1)) as [Hin | Hout]; [by right; left |].
    right; right. done.
Qed.

End Accounting.

Lemma calls_are_pending_settled_or_logged_witness :
  let st := state_after JsonParser.parse
              [Connect true;
               Data (JsonParser.lit "{'jsonrpc':'2.0','id':1,'result':{}}" ++ nl)%string;
               Call "tools/call" (JObj []); Call "tools/call" (JObj []); Timer;
               Data (JsonParser.lit "{'id':3,'error':{'message':[{'toString':null}]}}" ++ nl)%string]
              (new_McpClient "worker") in
  (size (pendingRequests st) + length (settled st) <= promises st
   <= size (pendingRequests st) + length (settled st) + failures st)%nat
  /\ promises st = 3%nat /\ size (pendingRequests st) = 1%nat
  /\ length (settled st) = 1%nat /\ failures st = 1%nat.
Proof.
  intros st. split; [| vm_compute; auto].
  apply (calls_are_pending_settled_or_logged JsonParser.parse "worker"
           [Connect true;
            Data (JsonParser.lit "{'jsonrpc':'2.0','id':1,'result':{}}" ++ nl)%string;
            Call "tools/call" (JObj []); Call "tools/call" (JObj []); Timer;
            Data (JsonParser.lit "{'id':3,'error':{'message':[{'toString':null}]}}" ++ nl)%string]).
  vm_compute. discriminate.
Defined.

(** ** Every call ends *)

Section Deadlines.

Variable JSON_parse : string -> option json.

Lemma requests_timers (n : nat) : requests (replicate n Timer) = 0%nat.
Proof. unfold requests. induction n as [|n IH]; [done | exact IH]. Qed.

(** X2. The timers alone end every pending call: from any state reached
    within the counter's exact range, once the timers armed there have
    fired, the pending set is empty and no timer is armed; the settlements
    made before are kept, the ones added are the timeout rejections of
    exactly the requests that were pending, and no promise has two
    settlements. *)
Theorem timers_end_every_pending_call (cmd : string) (evs : list event) :
  Z.of_nat (requests evs) <= MAX_EXACT ->
  let st := state_after JSON_parse evs (new_McpClient cmd) in
  let st' := state_after JSON_parse (replicate (length (timers st)) Timer) st in
  pendingRequests st' = ∅
  /\ timers st' = []
  /\ promises st' = promises st
  /\ NoDup (settled st').*1
  /\ settled st `prefix_of` settled st'
  /\ (forall id p, pendingRequests st !! id = Some p ->
                   (p, RejectedTimeout) ∈ settled st')
  /\ (forall p o, (p, o) ∈ settled st' ->
                  (p, o) ∈ settled st
                  \/ (o = RejectedTimeout
                      /\ pendingRequests st !! Z.of_nat p = Some p)).
Proof.
  intros Hmax st st'.
  assert (wf st) as Hwf by (by apply wf_reachable).
  destruct (fire_all (length (timers st)) st Hwf eq_refl)
    as (Hwf' & Ht & Hp & ps & Hs & Hps & Hsp).
  rewrite <- (run_timers JSON_parse) in Hwf', Ht, Hp, Hs.
  fold st' in Hwf', Ht, Hp, Hs.
  split.
  { apply map_empty. intros id.
    destruct (pendingRequests st' !! id) as [p|] eqn:E; [| done].
    destruct (wf_pending st' Hwf' id p E) as (_ & Hin & _).
    rewrite Ht in Hin. by apply elem_of_nil in Hin. }
  split; [exact Ht |]. split; [exact Hp |].
  split; [apply (wf_settled_nodup st' Hwf') |].
  split; [rewrite Hs; by apply prefix_app_r |].
  split.
  - intros id p Hpend. rewrite Hs. apply elem_of_app. right.
    apply list_elem_of_fmap. exists p. split; [done |]. by apply (Hps id).
  - intros p o. rewrite Hs, elem_of_app. intros [Hin | Hin]; [by left |].
    right. apply list_elem_of_fmap in Hin as (q & Hq & Hin).
    inversion Hq; subst. split; [done |]. by apply Hsp.
Qed.

End Deadlines.

Lemma timers_end_every_pending_call_witness :
  let st := state_after JsonParser.parse
              [Connect true; Call "tools/call" (JObj []); Close;
               Call "tools/call" (JObj [])]
              (new_McpClient "worker") in
  pendingRequests
    (state_after JsonParser.parse (replicate (length (timers st)) Timer) st) = ∅
  /\ length (timers st) = 3%nat.
Proof.
  intros st. split; [| vm_compute; reflexivity].
  apply (timers_end_every_pending_call JsonParser.parse "worker"
           [Connect true; Call "tools/call" (JObj []); Close;
            Call "tools/call" (JObj [])]).
  vm_compute. discriminate.
Defined.

(** ** Responses in any order *)

Lemma settle_pending_other (p : nat) (o : outcome) (id id' : Z) (st : State) :
  id' <> id ->
  pendingRequests
    (settle p o (with_pendingRequests (delete id (pendingRequests st)) st)) !! id'
  = pendingRequests st !! id'.
Proof.
  intros Hne.
  destruct (settle_frame p o (with_pendingRequests (delete id (pendingRequests st)) st))
    as (_ & _ & -> & _).
  fields. by apply lookup_delete_ne.
Qed.

(** X3. Responses are matched by id alone.  With two requests pending
    under different ids and a response for each that settles (it has no
    truthy error, or one of which the error can be made), the responses
    may come in either order: each request is settled with the outcome of
    its own response (rejected with the error's message, or resolved with
    the result), both entries leave the pending set, every other entry
    stays, and apart from the order of the two settlements the client ends
    in the same state. *)
Theorem responses_commute
    (st : State) (r1 r2 : json) (id1 id2 : Z) (p1 p2 : nat) (o1 o2 : outcome) :
  Js.prop "id" r1 = Some (JNum id1) ->
  Js.prop "id" r2 = Some (JNum id2) ->
  id1 <> id2 ->
  pendingRequests st !! id1 = Some p1 ->
  pendingRequests st !! id2 = Some p2 ->
  response_outcome r1 = Some o1 ->
  response_outcome r2 = Some o2 ->
  exists a b s12 s21,
    handleResponse r1 st = Normal a /\ handleResponse r2 a = Normal s12
    /\ handleResponse r2 st = Normal b /\ handleResponse r1 b = Normal s21
    /\ settled s12 = settled st ++ [(p1, o1); (p2, o2)]
    /\ settled s21 = settled st ++ [(p2, o2); (p1, o1)]
    /\ pendingRequests s12 = delete id2 (delete id1 (pendingRequests st))
    /\ (forall id, id <> id1 -> id <> id2 ->
                   pendingRequests s12 !! id = pendingRequests st !! id)
    /\ with_settled [] s12 = with_settled [] s21.
Proof.
  intros H1 H2 Hne Hp1 Hp2 Ho1 Ho2.
  set (a := settle p1 o1
              (with_pendingRequests (delete id1 (pendingRequests st)) st)).
  set (b := settle p2 o2
              (with_pendingRequests (delete id2 (pendingRequests st)) st)).
  assert (pendingRequests a !! id2 = Some p2) as Ha
    by (unfold a; rewrite settle_pending_other; [done | congruence]).
  assert (pendingRequests b !! id1 = Some p1) as Hb
    by (unfold b; rewrite settle_pending_other; [done | congruence]).
  exists a, b. eexists _, _.
  split; [exact (handleResponse_match r1 id1 p1 o1 st H1 Hp1 Ho1) |].
  split; [exact (handleResponse_match r2 id2 p2 o2 a H2 Ha Ho2) |].
  split; [exact (handleResponse_match r2 id2 p2 o2 st H2 Hp2 Ho2) |].
  split; [exact (handleResponse_match r1 id1 p1 o1 b H1 Hb Ho1) |].
  destruct (settle_frame p1 o1
              (with_pendingRequests (delete id1 (pendingRequests st)) st))
    as (_ & _ & A3 & _ & _ & _ & _ & _ & A9).
  destruct (settle_frame p2 o2
              (with_pendingRequests (delete id2 (pendingRequests st)) st))
    as (_ & _ & B3 & _ & _ & _ & _ & _ & B9).
  fold a in A3, A9. fold b in B3, B9.
  destruct (settle_frame p2 o2
              (with_pendingRequests (delete id2 (pendingRequests a)) a))
    as (_ & _ & C3 & _ & _ & _ & _ & _ & C9).
  destruct (settle_frame p1 o1
              (with_pendingRequests (delete id1 (pendingRequests b)) b))
    as (_ & _ & D3 & _ & _ & _ & _ & _ & D9).
  fields.
  split; [rewrite C9, A9; fields; by rewrite <- app_assoc |].
  split; [rewrite D9, B9; fields; by rewrite <- app_assoc |].
  split; [by rewrite C3, A3 |].
  split.
  { intros id Hn1 Hn2. rewrite C3, A3. fields.
    by rewrite !lookup_delete_ne by done. }
  unfold a, b, settle.
  destruct o1, o2; fields;
    repeat case_bool_decide; fields; try contradiction;
    rewrite (delete_delete (pendingRequests st) id1 id2); reflexivity.
Qed.

Lemma responses_commute_witness :
  let st := state_after JsonParser.parse
              [Connect true; Call "tools/call" (JObj [])]
              (new_McpClient "worker") in
  exists a b s12 s21,
    handleResponse (JObj [("id", JNum 1); ("result", JStr "one")]%string) st
    = Normal a
    /\ handleResponse
         (JObj [("id", JNum 2); ("error", JObj [("message", JStr "no")])]%string) a
       = Normal s12
    /\ handleResponse
         (JObj [("id", JNum 2); ("error", JObj [("message", JStr "no")])]%string) st
       = Normal b
    /\ handleResponse (JObj [("id", JNum 1); ("result", JStr "one")]%string) b
       = Normal s21
    /\ settled s12 = [(1%nat, Resolved (Some (JStr "one")));
                      (2%nat, RejectedRemote "no")]
    /\ settled s21 = [(2%nat, RejectedRemote "no");
                      (1%nat, Resolved (Some (JStr "one")))].
Proof.
  intros st.
  destruct (responses_commute st
              (JObj [("id", JNum 1); ("result", JStr "one")]%string)
              (JObj [("id", JNum 2); ("error", JObj [("message", JStr "no")])]%string)
              1 2 1%nat 2%nat
              (Resolved (Some (JStr "one"))) (RejectedRemote "no"))
    as (a & b & s12 & s21 & Ea & E12 & Eb & E21 & S12 & S21 & _);
    [reflexivity | reflexivity | lia | vm_compute; reflexivity
     | vm_compute; reflexivity | reflexivity | reflexivity |].
  exists a, b, s12, s21. split; [exact Ea |]. split; [exact E12 |].
  split; [exact Eb |]. split; [exact E21 |].
  split; [rewrite S12 | rewrite S21]; vm_compute; reflexivity.
Defined.

(** ** The handshake *)

Lemma connect_spawns (st : State) :
  connected st && bool_decide (is_Some (process st)) = false ->
  connect true st
  = (Some (Pending (increment (requestId st)) (S (promises st))),
     with_handshakes (S (promises st) :: handshakes st)
       (with_timers (timers st ++ [(increment (requestId st), S (promises st))])
          (with_process
             (Some {| pid := spawned st;
                      stdin := Some [(Js.stringify
                                        (request "initialize" initialize_params
                                           (increment (requestId st))) ++ nl)%string] |})
             (with_pendingRequests
                (<[increment (requestId st) := S (promises st)]> (pendingRequests st))
                (with_promises (S (promises st))
                   (with_requestId (increment (requestId st))
                      (with_spawned (S (spawned st)) st))))))).
Proof. intros H. unfold connect. rewrite H. reflexivity. Qed.

(** X4. A [connect] that spawns (the client is not both connected and
    holding a process) issues the handshake under the next id and leaves
    [connected] as it was.  A response to that id without a truthy error
    resolves the handshake and sets [connected].  A response with a truthy
    error of which the Error can be made rejects the handshake with that
    message, and so does the timeout with its own; a response with a truthy
    error of which no Error can be made removes the entry and settles
    nothing.  In these three cases [connected] stays as it was and the
    worker is neither killed nor released: the process handle and its
    input pipe stay, so later calls still pass the guard. *)
Theorem handshake_outcomes (st : State) :
  connected st && bool_decide (is_Some (process st)) = false ->
  let id := increment (requestId st) in
  let p := S (promises st) in
  let st1 := snd (connect true st) in
  fst (connect true st) = Some (Pending id p)
  /\ connected st1 = connected st
  /\ pendingRequests st1 !! id = Some p
  /\ (forall response,
        Js.prop "id" response = Some (JNum id) ->
        Js.truthy (Js.prop "error" response) = false ->
        exists st2,
          handleResponse response st1 = Normal st2
          /\ connected st2 = true
          /\ settled st2 = settled st ++ [(p, Resolved (Js.prop "result" response))])
  /\ (forall response message,
        Js.prop "id" response = Some (JNum id) ->
        Js.truthy (Js.prop "error" response) = true ->
        Js.new_Error (Js.opt_prop "message" (Js.prop "error" response))
        = Some message ->
        exists st2,
          handleResponse response st1 = Normal st2
          /\ settled st2 = settled st ++ [(p, RejectedRemote message)]
          /\ connected st2 = connected st
          /\ killed st2 = killed st
          /\ is_Some (process_stdin st2))
  /\ (forall response,
        Js.prop "id" response = Some (JNum id) ->
        Js.truthy (Js.prop "error" response) = true ->
        Js.new_Error (Js.opt_prop "message" (Js.prop "error" response)) = None ->
        exists st2,
          handleResponse response st1 = Abrupt st2
          /\ settled st2 = settled st
          /\ pendingRequests st2 !! id = None
          /\ connected st2 = connected st
          /\ killed st2 = killed st
          /\ is_Some (process_stdin st2))
  /\ (connected (on_timeout (id, p) st1) = connected st
      /\ settled (on_timeout (id, p) st1) = settled st ++ [(p, RejectedTimeout)]
      /\ killed (on_timeout (id, p) st1) = killed st
      /\ is_Some (process_stdin (on_timeout (id, p) st1))).
Proof.
  intros H id p st1. unfold st1. rewrite (connect_spawns st H). cbn [fst snd].
  fold id p.
  split; [reflexivity |]. split; [reflexivity |].
  split; [fields; by rewrite lookup_insert_eq |].
  split; [| split; [| split]].
  - intros response Hid Herr. eexists.
    split; [apply (handleResponse_match response id p
                     (Resolved (Js.prop "result" response))); [exact Hid | |];
            [fields; by rewrite lookup_insert_eq
            | unfold response_outcome; by rewrite Herr] |].
    unfold settle. fields.
    rewrite bool_decide_eq_true_2 by (by left). fields. done.
  - intros response message Hid Herr Hmsg. eexists.
    split; [apply (handleResponse_match response id p (RejectedRemote message));
            [exact Hid | |];
            [fields; by rewrite lookup_insert_eq
            | unfold response_outcome; by rewrite Herr, Hmsg] |].
    unfold settle, process_stdin. fields.
    repeat split; by eexists.
  - intros response Hid Herr Hmsg. eexists.
    split; [apply (handleResponse_throws response id p); [exact Hid | |];
            [fields; by rewrite lookup_insert_eq
            | by apply response_outcome_none] |].
    unfold process_stdin. fields.
    split; [done |]. split; [apply lookup_delete_eq |].
    repeat split; by eexists.
  - rewrite on_timeout_pending by (fields; rewrite lookup_insert_eq; by eexists).
    unfold settle, process_stdin. fields. repeat split; by eexists.
Qed.

Lemma handshake_outcomes_witness :
  fst (connect true (new_McpClient "worker"))
  = Some (Pending (increment (requestId (new_McpClient "worker")))
            (S (promises (new_McpClient "worker"))))
  /\ connected (state_after JsonParser.parse
                  [Connect true;
                   Data (JsonParser.lit "{'jsonrpc':'2.0','id':1,'result':{}}" ++ nl)%string]
                  (new_McpClient "worker")) = true.
Proof.
  split; [| vm_compute; reflexivity].
  exact (proj1 (handshake_outcomes (new_McpClient "worker") eq_refl)).
Defined.

(** ** What the worker reads *)

Lemma chop_newline_append (s : string) : chop_newline (s ++ nl) = Some s.
Proof.
  induction s as [|c s IH]; [reflexivity |].
  change (String c s ++ nl)%string with (String c (s ++ nl)).
  destruct (s ++ nl)%string as [|d t] eqn:E.
  - destruct s; discriminate.
  - cbn [chop_newline]. cbn [chop_newline] in IH. rewrite IH. reflexivity.
Qed.

Lemma frame_request_lines (written : list string) :
  Forall request_line written ->
  frame EmptyString (JsString.concat written) = (bodies written, EmptyString)
  /\ length (bodies written) = length written
  /\ Forall (fun b => JsString.contains JsString.newline b = false) (bodies written)
  /\ List.map (fun b => (b ++ nl)%string) (bodies written) = written.
Proof.
  induction 1 as [|text written [v ->] _ (IH1 & IH2 & IH3 & IH4)].
  - split; [by apply frame_nothing |]. split; [reflexivity |].
    split; [constructor | reflexivity].
  - unfold bodies in *. cbn [omap list_omap JsString.concat].
    rewrite chop_newline_append. cbn [length List.map].
    split.
    { rewrite frame_append.
      rewrite (frame_one_line _ (StringifyFacts.clean_stringify v)).
      by rewrite IH1. }
    split; [by rewrite IH2 |].
    split; [constructor; [apply StringifyFacts.clean_stringify | exact IH3] |].
    by rewrite IH4.
Qed.

Section Transcript.

Variable JSON_parse : string -> option json.

Lemma written_ok_call (method : string) (params : json) (st : State) :
  written_ok st -> written_ok (snd (call method params st)).
Proof.
  intros Hst.
  destruct (call_cases method params st) as [[_ ->] | (child & w & Hc & Hw & ->)];
    [exact Hst |].
  intros written. unfold process_stdin. cbn [snd]. fields. cbn [stdin].
  intros Hwr. apply (inj Some) in Hwr. subst written.
  apply Forall_app. split.
  - apply Hst. unfold process_stdin. by rewrite Hc.
  - constructor; [by eexists | constructor].
Qed.

Lemma written_ok_step (e : event) (st : State) :
  written_ok st -> written_ok (snd (step JSON_parse e st)).
Proof.
  intros Hst. destruct e as [ok | m ps | chunk | | | |]; simpl.
  - unfold connect.
    destruct (connected st && bool_decide (is_Some (process st))); [exact Hst |].
    set (st1 := with_spawned _ _).
    assert (written_ok st1) as H1.
    { intros written. unfold st1, process_stdin. fields. cbn [stdin].
      destruct ok; [| discriminate]. intros Hwr. apply (inj Some) in Hwr.
      subst written. constructor. }
    pose proof (written_ok_call "initialize" initialize_params st1 H1) as H2.
    unfold initialize.
    destruct (call "initialize" initialize_params st1) as [[m | id p] st2];
      exact H2.
  - pose proof (written_ok_call m ps st Hst) as H.
    by destruct (call m ps st).
  - intros written. unfold process_stdin. rewrite handleData_process. apply Hst.
  - intros written. unfold process_stdin.
    destruct (fire_timer_frame st) as (_ & -> & _). apply Hst.
  - exact Hst.
  - exact Hst.
  - unfold disconnect. destruct (process st); [| exact Hst].
    intros written. unfold process_stdin. fields. discriminate.
Qed.

(** X5. Requests cannot run together on the wire.  In every state a
    client reaches, each text written to the worker now held is the output
    of [JSON.stringify] followed by one newline; read back through the
    client's own framing, the whole of what was written splits into exactly
    one complete line per write, in order, with nothing left over, whatever
    the methods and parameters were. *)
Theorem writes_are_whole_lines
    (cmd : string) (evs : list event) (written : list string) :
  process_stdin (state_after JSON_parse evs (new_McpClient cmd)) = Some written ->
  Forall request_line written
  /\ frame EmptyString (JsString.concat written) = (bodies written, EmptyString)
  /\ length (bodies written) = length written
  /\ Forall (fun b => JsString.contains JsString.newline b = false) (bodies written)
  /\ List.map (fun b => (b ++ nl)%string) (bodies written) = written.
Proof.
  intros Hw.
  assert (written_ok (state_after JSON_parse evs (new_McpClient cmd))) as Hok.
  { clear Hw. unfold state_after.
    assert (written_ok (new_McpClient cmd)) as H0 by (intros w; discriminate).
    revert H0. generalize (new_McpClient cmd).
    induction evs as [|e evs IH]; intros st Hst; [exact Hst |].
    rewrite run_cons. cbn [snd]. exact (IH _ (written_ok_step e st Hst)). }
  split; [exact (Hok written Hw) |].
  exact (frame_request_lines written (Hok written Hw)).
Qed.

End Transcript.

Lemma writes_are_whole_lines_witness :
  let st := state_after JsonParser.parse
              [Connect true;
               Call "tools/call"
                 (JObj [("name", JStr "memory_search");
                        ("arguments",
                         JObj [("query", JStr (String "a" (String JsString.newline "b")));
                               ("limit", JNum 20)])]%string)]
              (new_McpClient "worker") in
  exists written,
    process_stdin st = Some written
    /\ length written = 2%nat
    /\ frame EmptyString (JsString.concat written) = (bodies written, EmptyString).
Proof.
  intros st.
  assert (exists written, process_stdin st = Some written /\ length written = 2%nat)
    as (written & Hw & Hl) by (eexists; split; vm_compute; reflexivity).
  exists written. split; [exact Hw |]. split; [exact Hl |].
  exact (proj1 (proj2 (writes_are_whole_lines JsonParser.parse "worker" _ written Hw))).
Defined.

(** ** What a read leaves alone *)

Section Reads.

Variable JSON_parse : string -> option json.

(** X6. Whatever the worker sends, a read writes nothing to it, assigns no
    id, creates no promise, arms or cancels no timer and spawns or kills
    nothing; it registers no request: the entries of the pending set after
    the read are entries from before, the settlements from before are kept
    in order, every settlement it adds removes one pending entry, and every
    entry it removes is either settled or goes with a logged line. *)
Theorem reads_only_settle (data : string) (st : State) :
  let st' := handleData JSON_parse data st in
  requestId st' = requestId st
  /\ process st' = process st
  /\ promises st' = promises st
  /\ timers st' = timers st
  /\ handshakes st' = handshakes st
  /\ killed st' = killed st
  /\ spawned st' = spawned st
  /\ (forall id p, pendingRequests st' !! id = Some p ->
                   pendingRequests st !! id = Some p)
  /\ settled st `prefix_of` settled st'
  /\ (size (pendingRequests st') + length (settled st')
      <= size (pendingRequests st) + length (settled st))%nat
  /\ (size (pendingRequests st) + length (settled st) + failures st
      <= size (pendingRequests st') + length (settled st') + failures st')%nat.
Proof.
  apply (handleData_ind JSON_parse
           (fun s =>
              requestId s = requestId st
              /\ process s = process st
              /\ promises s = promises st
              /\ timers s = timers st
              /\ handshakes s = handshakes st
              /\ killed s = killed st
              /\ spawned s = spawned st
              /\ (forall id p, pendingRequests s !! id = Some p ->
                               pendingRequests st !! id = Some p)
              /\ settled st `prefix_of` settled s
              /\ (size (pendingRequests s) + length (settled s)
                  <= size (pendingRequests st) + length (settled st))%nat
              /\ (size (pendingRequests st) + length (settled st) + failures st
                  <= size (pendingRequests s) + length (settled s) + failures s)%nat)).
  - intros line s (H1 & H2 & H3 & H4 & H5 & H6 & H7 & H8 & H9 & H10 & H11).
    rewrite failures_log. fields. repeat (split; [done |]). lia.
  - intros id p o s (H1 & H2 & H3 & H4 & H5 & H6 & H7 & H8 & H9 & H10 & H11) Hp _.
    pose proof (size_delete_pending id s (ex_intro _ p Hp)) as Hd.
    assert (forall id' q, delete id (pendingRequests s) !! id' = Some q ->
                          pendingRequests st !! id' = Some q) as Hsub.
    { intros id' q Hq. apply lookup_delete_Some in Hq as [_ Hq]. by apply H8. }
    assert (settled st `prefix_of` settled s ++ [(p, o)]) as Hpre
      by (by apply prefix_app_r).
    unfold settle, failures in *.
    destruct o; try case_bool_decide; fields;
      repeat (split; [done |]); rewrite length_app; simpl; lia.
  - intros id p line s (H1 & H2 & H3 & H4 & H5 & H6 & H7 & H8 & H9 & H10 & H11) Hp.
    pose proof (size_delete_pending id s (ex_intro _ p Hp)) as Hd.
    assert (forall id' q, delete id (pendingRequests s) !! id' = Some q ->
                          pendingRequests st !! id' = Some q) as Hsub.
    { intros id' q Hq. apply lookup_delete_Some in Hq as [_ Hq]. by apply H8. }
    rewrite failures_log. unfold failures in *. fields.
    repeat (split; [done |]). lia.
  - intros b s H. exact H.
  - repeat (split; [reflexivity |]). split; [auto |]. split; [done |]. lia.
Qed.

End Reads.

(** ** Connecting and disconnecting again *)



(** X8. [disconnect] may be repeated: the second one changes nothing.
    After it the client holds no process, so every [call] fails with
    'Not connected to MCP server' and changes nothing; the buffer, with
    whatever unterminated text the old worker left, and the pending set are
    carried over, and the next [connect] spawns and issues its handshake
    under the next id of the same counter. *)
Theorem disconnect_then (st : State) (method : string) (params : json) :
  disconnect (disconnect st) = disconnect st
  /\ call method params (disconnect st)
     = (Threw "Not connected to MCP server", disconnect st)
  /\ buffer (disconnect st) = buffer st
  /\ pendingRequests (disconnect st) = pendingRequests st
  /\ fst (connect true (disconnect st))
     = Some (Pending (increment (requestId st)) (S (promises st)))
  /\ buffer (snd (connect true (disconnect st))) = buffer st.
Proof.
  assert (process (disconnect st) = None) as Hp
    by (unfold disconnect; destruct (process st) eqn:E; [reflexivity | exact E]).
  assert (buffer (disconnect st) = buffer st
          /\ pendingRequests (disconnect st) = pendingRequests st
          /\ requestId (disconnect st) = requestId st
          /\ promises (disconnect st) = promises st) as (Hb & Hq & Hr & Hn)
    by (unfold disconnect; by destruct (process st)).
  split; [unfold disconnect at 1; by rewrite Hp |].
  split; [unfold call; by rewrite Hp |].
  split; [exact Hb |]. split; [exact Hq |].
  assert (connected (disconnect st)
          && bool_decide (is_Some (process (disconnect st))) = false) as Hg.
  { rewrite Hp. rewrite bool_decide_eq_false_2 by (by intros [? ?]).
    apply andb_false_r. }
  rewrite (connect_spawns _ Hg). cbn [fst snd]. fields.
  by rewrite Hr, Hn, Hb.
Qed.

(** ** The typed methods on an undecodable text *)

Section Defaults.

Variable JSON_parse : string -> option json.

(** X9. The typed methods differ on a text [JSON.parse] rejects:
    [getStats] has no [try] and throws exactly when the first content item
    has a truthy text on which [JSON.parse] throws, where [search] and
    [list] give the empty sequence and [recall] null.  Without a truthy text [getStats]
    gives the zero statistics and [store] the empty string; with one,
    [store] gives the text back unparsed. *)
Theorem getStats_throws_where_search_defaults (result : jsval) :
  (getStats_result JSON_parse result = None
   <-> exists text, content_text result = Some text
                    /\ Js.truthy (Some text) = true
                    /\ JSON_parse_value JSON_parse text = None)
  /\ (getStats_result JSON_parse result = None ->
      search_result JSON_parse result = JArr []
      /\ list_result JSON_parse result = JArr []
      /\ recall_result JSON_parse result = JNull)
  /\ (Js.truthy (content_text result) = false ->
      getStats_result JSON_parse result
      = Some (JObj [("total_documents", JNum 0); ("components", JObj [])]%string)
      /\ store_result result = JStr EmptyString)
  /\ (forall text, content_text result = Some text -> Js.truthy (Some text) = true ->
                   store_result result = text).
Proof.
  unfold getStats_result, search_result, list_result, recall_result, store_result.
  destruct (content_text result) as [text|].
  - destruct (Js.truthy (Some text)) eqn:Ht.
    + split.
      { split; [intros Hp; by exists text |].
        intros (t & Ht' & _ & Hp). by inversion Ht'; subst. }
      split; [by intros -> |].
      split; [discriminate |].
      intros t Ht' _. by inversion Ht'.
    + split.
      { split; [discriminate |]. intros (t & Ht' & Htt & _).
        inversion Ht'; subst. congruence. }
      split; [discriminate |].
      split; [done |]. intros t Ht' Htt. inversion Ht'; subst. congruence.
  - split.
    { split; [discriminate |]. intros (t & ? & _). discriminate. }
    split; [discriminate |].
    split; [done |]. intros t ?. discriminate.
Qed.

End Defaults.

(** ** Blank lines *)

Lemma trimStart_empty (s : string) :
  JsString.is_empty (JsString.trimStart s) = true
  <-> Forall (fun c => JsString.is_white c = true) (list_ascii_of_string s).
Proof.
  induction s as [|c s IH]; simpl.
  - split; [constructor | reflexivity].
  - destruct (JsString.is_white c) eqn:Hc.
    + rewrite IH. split; [by constructor | by inversion 1].
    + split; [discriminate | inversion 1; congruence].
Qed.

Lemma trimEnd_empty (s : string) :
  JsString.is_empty (JsString.trimEnd s) = true
  <-> Forall (fun c => JsString.is_white c = true) (list_ascii_of_string s).
Proof.
  induction s as [|c s IH]; simpl.
  - split; [constructor | reflexivity].
  - destruct (JsString.is_white c) eqn:Hc; simpl.
    + destruct (JsString.is_empty (JsString.trimEnd s)) eqn:He; simpl.
      * split; [intros _; constructor; [done | by apply IH] | done].
      * split; [discriminate |]. inversion 1; subst.
        apply IH in H3. discriminate.
    + split; [discriminate | inversion 1; congruence].
Qed.

Lemma trimStart_white (s : string) :
  Forall (fun c => JsString.is_white c = true)
    (list_ascii_of_string (JsString.trimStart s))
  <-> Forall (fun c => JsString.is_white c = true) (list_ascii_of_string s).
Proof.
  induction s as [|c s IH]; simpl; [done |].
  destruct (JsString.is_white c) eqn:Hc.
  - rewrite IH. split; [by constructor | by inversion 1].
  - done.
Qed.

(** X10. The test [!line.trim()] passes over exactly the lines made of
    white space only (the empty line among them): such a line changes
    nothing and is not logged, and any other line reaches [JSON.parse]. *)
Theorem skipped_iff_blank (JSON_parse : string -> option json) (line : string) :
  (skipped line = true
   <-> Forall (fun c => JsString.is_white c = true) (list_ascii_of_string line))
  /\ (skipped line = true -> forall st, handle_line JSON_parse line st = st)
  /\ (skipped line = false -> JSON_parse line = None ->
      forall st, handle_line JSON_parse line st = log_failure line st).
Proof.
  split; [unfold skipped, JsString.trim; by rewrite trimEnd_empty, trimStart_white |].
  split; intros H; [intros st | intros Hp st]; unfold handle_line; rewrite H; [done |].
  by rewrite Hp.
Qed.

(** ** A read without a newline *)

(** X16. A message is decoded only once its newline has arrived.  A read
    that brings no newline to a buffer holding none decodes nothing, logs
    nothing and settles nothing: it only appends the data to the buffer,
    which has no bound, however complete the JSON it holds may be. *)
Theorem unterminated_read_only_buffers
    (JSON_parse : string -> option json) (data : string) (st : State) :
  JsString.contains JsString.newline (buffer st ++ data) = false ->
  handleData JSON_parse data st = with_buffer (buffer st ++ data) st
  /\ String.length (buffer (handleData JSON_parse data st))
     = (String.length (buffer st) + String.length data)%nat.
Proof.
  intros H.
  assert (handleData JSON_parse data st = with_buffer (buffer st ++ data) st) as E.
  { unfold handleData.
    rewrite (frame_snoc (buffer st) data [] (buffer st ++ data));
      [reflexivity |].
    by apply JsStringFacts.split_no_separator. }
  split; [exact E |]. rewrite E. fields.
  generalize (buffer st). intros b.
  induction b as [|c b IH]; simpl; [reflexivity | by rewrite IH].
Qed.

Lemma unterminated_read_only_buffers_witness :
  handleData JsonParser.parse (JsonParser.lit "{'jsonrpc':'2.0','id':1,'result':{}}")
    connecting_client
  = with_buffer
      (buffer connecting_client
       ++ JsonParser.lit "{'jsonrpc':'2.0','id':1,'result':{}}")
      connecting_client.
Proof.
  apply (unterminated_read_only_buffers JsonParser.parse
           (JsonParser.lit "{'jsonrpc':'2.0','id':1,'result':{}}")
           connecting_client).
  vm_compute. reflexivity.
Defined.

(** ** When the worker exits *)

(** X14. The exit of the worker only clears [connected] and logs: the
    handle and its pipe stay, no pending request is settled and no timer
    is touched.  So a [call] made after the exit still passes the guard,
    is assigned the next id and is written to the gone worker, and a
    [connect] made after the exit spawns a new worker without killing or
    recording the old one. *)
Theorem exit_keeps_handle (st : State) (method : string) (params : json) :
  is_Some (process_stdin st) ->
  let st' := on_close st in
  isConnected st' = false
  /\ process st' = process st
  /\ pendingRequests st' = pendingRequests st
  /\ settled st' = settled st
  /\ timers st' = timers st
  /\ console st' = console st ++ [ProcessExited]
  /\ fst (call method params st')
     = Pending (increment (requestId st)) (S (promises st))
  /\ fst (connect true st')
     = Some (Pending (increment (requestId st)) (S (promises st)))
  /\ killed (snd (connect true st')) = killed st
  /\ spawned (snd (connect true st')) = S (spawned st).
Proof.
  intros [w Hw] st'.
  repeat (split; [reflexivity |]).
  split.
  { destruct (call_cases method params st') as [[Hn _] | (c & w' & _ & _ & ->)];
      [| reflexivity].
    unfold st', process_stdin in Hn. fields. unfold process_stdin in Hw.
    congruence. }
  assert (connected st' && bool_decide (is_Some (process st')) = false) as Hg
    by reflexivity.
  rewrite (connect_spawns st' Hg). cbn [fst snd]. unfold st'. fields. done.
Qed.

Lemma exit_keeps_handle_witness :
  fst (call "tools/call" (JObj []) (on_close ready_client))
  = Pending (increment (requestId ready_client)) (S (promises ready_client)).
Proof.
  assert (is_Some (process_stdin ready_client)) as H
    by (vm_compute; by eexists).
  pose proof (exit_keeps_handle ready_client "tools/call" (JObj []) H)
    as (_ & _ & _ & _ & _ & _ & Hc & _).
  exact Hc.
Defined.

(** X15. [connected] can outlive the process.  When the handshake is
    still pending at a [disconnect], a response to it that arrives
    afterwards resolves it and sets [connected], although no process is
    held: [isConnected] then answers true while every call fails with
    'Not connected to MCP server'. *)
Theorem late_handshake_sets_connected
    (st : State) (id : Z) (p : nat) (response : json)
    (method : string) (params : json) :
  pendingRequests st !! id = Some p ->
  p ∈ handshakes st ->
  Js.prop "id" response = Some (JNum id) ->
  Js.truthy (Js.prop "error" response) = false ->
  exists st2,
    handleResponse response (disconnect st) = Normal st2
    /\ isConnected st2 = true
    /\ process st2 = None
    /\ call method params st2 = (Threw "Not connected to MCP server", st2).
Proof.
  intros Hp Hh Hid Herr.
  assert (pendingRequests (disconnect st) !! id = Some p
          /\ handshakes (disconnect st) = handshakes st
          /\ process (disconnect st) = None) as (Hp' & Hh' & Hn).
  { unfold disconnect. destruct (process st) eqn:E; fields; auto. }
  eexists.
  split; [apply (handleResponse_match response id p
                   (Resolved (Js.prop "result" response)) _ Hid Hp');
          unfold response_outcome; by rewrite Herr |].
  unfold settle. fields. rewrite Hh'.
  rewrite bool_decide_eq_true_2 by done.
  unfold isConnected, call. fields. rewrite Hn. done.
Qed.

Lemma late_handshake_sets_connected_witness :
  exists st2,
    handleResponse (JObj [("id", JNum 1); ("result", JObj [])]%string)
      (disconnect connecting_client) = Normal st2
    /\ isConnected st2 = true
    /\ process st2 = None.
Proof.
  destruct (late_handshake_sets_connected connecting_client 1 1%nat
              (JObj [("id", JNum 1); ("result", JObj [])]%string)
              "tools/call" (JObj []))
    as (st2 & H1 & H2 & H3 & _);
    [vm_compute; reflexivity | vm_compute; by left | reflexivity | reflexivity |].
  exists st2. auto.
Defined.

(** * The callers *)

Module CallersFacts.

Import Callers.
Local Open Scope string_scope.

Lemma length_append (a b : string) :
  String.length (a ++ b) = (String.length a + String.length b)%nat.
Proof. induction a as [|c a IH]; simpl; [reflexivity | by rewrite IH]. Qed.

Lemma substring0_length (n : nat) (s : string) :
  String.length (substring0 n s) = Nat.min n (String.length s).
Proof.
  revert s. induction n as [|n IH]; intros [|c s]; simpl; try reflexivity.
  by rewrite IH.
Qed.

Lemma substring0_all (n : nat) (s : string) :
  (String.length s <= n)%nat -> substring0 n s = s.
Proof.
  revert s. induction n as [|n IH]; intros [|c s]; simpl; intros H;
    try reflexivity; [lia |].
  rewrite IH; [reflexivity | lia].
Qed.

Lemma substring0_prefix (n : nat) (s : string) :
  exists rest, s = substring0 n s ++ rest.
Proof.
  revert s. induction n as [|n IH]; intros [|c s]; simpl;
    try (by eexists).
  destruct (IH s) as [rest Hr]. exists rest. by rewrite <- Hr.
Qed.

(** X11. The label of a memory (60 code units in the recent list, 80 in
    the quick pick) is the content itself when that fits, and otherwise
    its first [n] code units followed by three dots; so it never exceeds
    [n + 3] code units, and its part before the dots is a prefix of the
    content. *)
Theorem preview_bounds (n : nat) (content : string) :
  (String.length (preview n content) <= n + 3)%nat
  /\ ((String.length content <= n)%nat -> preview n content = content)
  /\ ((n < String.length content)%nat ->
      preview n content = substring0 n content ++ "..."
      /\ String.length (preview n content) = (n + 3)%nat)
  /\ String.length (substring0 n content) = Nat.min n (String.length content)
  /\ (exists rest, content = substring0 n content ++ rest)
  /\ recent_label content = preview 60 content
  /\ quickpick_label content = preview 80 content.
Proof.
  unfold preview.
  pose proof (substring0_length n content) as Hl.
  split.
  { rewrite length_append, Hl.
    destruct (Nat.ltb_spec n (String.length content)); simpl; lia. }
  split.
  { intros H. destruct (Nat.ltb_spec n (String.length content)); [lia |].
    rewrite substring0_all by done. apply JsStringFacts.append_empty_r. }
  split.
  { intros H. destruct (Nat.ltb_spec n (String.length content)); [| lia].
    split; [reflexivity |]. rewrite length_append, Hl. simpl. lia. }
  split; [exact Hl |]. split; [apply substring0_prefix |]. split; reflexivity.
Qed.

(** *** The tags of [storeMemory] *)












Example allTags_example :
  allTags ["ide"; "work"] (Some " rust, ide ,, work,async ")
  = ["ide"; "work"; "rust"; "async"].
Proof. vm_compute. reflexivity. Qed.

(** *** [detectLanguage] *)

Lemma pop_split_last (base ext : string) :
  JsString.contains "." ext = false ->
  fst (JsString.pop (JsString.split "." (base ++ String "." ext))) = Some ext.
Proof.
  intros Hext.
  destruct (JsStringFacts.split_snoc "." base) as (segs & seg & Hb & _).
  rewrite (JsStringFacts.split_append "." base (String "." ext)
             segs seg EmptyString [ext] Hb).
  - change (segs ++ (seg ++ EmptyString)%string :: [ext])%list
      with (segs ++ [(seg ++ EmptyString)%string] ++ [ext])%list.
    rewrite app_assoc, JsStringFacts.pop_snoc. reflexivity.
  - cbn [JsString.split]. change (Ascii.eqb "." ".") with true. cbn iota.
    by rewrite JsStringFacts.split_no_separator.
Qed.

Lemma pop_split_whole (name : string) :
  JsString.contains "." name = false ->
  fst (JsString.pop (JsString.split "." name)) = Some name.
Proof.
  intros H. rewrite JsStringFacts.split_no_separator by done.
  change [name] with ([] ++ [name])%list.
  by rewrite (JsStringFacts.pop_snoc [] name).
Qed.

Lemma assoc_langMap (k name : string) :
  assoc k langMap = Some name -> name ∈ (List.map snd langMap).
Proof.
  unfold langMap. cbn [assoc].
  repeat (destruct (String.eqb _ k);
          [intros [= <-]; apply list_elem_of_In; cbn; tauto |]).
  discriminate.
Qed.

(** X13. [detectLanguage] looks only at what follows the last dot of the
    source, lower-cased: two sources whose last parts agree up to case get
    the same answer whatever precedes, a source without a dot is taken
    whole as if it were an extension, and a source ending in a dot gets
    plaintext.  The answer is one of the listed languages or plaintext,
    except for the two keys every object answers through its prototype,
    for which it is no string. *)
Theorem detectLanguage_by_extension (base base' ext ext' : string) :
  JsString.contains "." ext = false ->
  JsString.contains "." ext' = false ->
  toLowerCase ext = toLowerCase ext' ->
  detectLanguage (base ++ String "." ext) = detectLanguage (base' ++ String "." ext')
  /\ detectLanguage (base ++ String "." ext) = detectLanguage ext
  /\ detectLanguage (base ++ ".") = Language "plaintext"
  /\ (forall source,
        (exists name, detectLanguage source = Language name
                      /\ (name = "plaintext" \/ name ∈ (List.map snd langMap)))
        \/ (exists key, detectLanguage source = Inherited key
                        /\ inherited_key key = true)).
Proof.
  intros He He' Hlow.
  assert (forall b e, JsString.contains "." e = false ->
            detectLanguage (b ++ String "." e)
            = match assoc (toLowerCase e) langMap with
              | Some name => Language name
              | None => if inherited_key (toLowerCase e)
                        then Inherited (toLowerCase e) else Language "plaintext"
              end) as Hdot.
  { intros b e H. unfold detectLanguage. by rewrite pop_split_last. }
  split; [by rewrite !Hdot, Hlow |].
  split; [rewrite Hdot by done; unfold detectLanguage; by rewrite pop_split_whole |].
  split; [by rewrite (Hdot base EmptyString) |].
  intros source. unfold detectLanguage.
  destruct (assoc _ langMap) as [name|] eqn:E.
  - left. exists name. split; [reflexivity |]. right. by apply assoc_langMap in E.
  - destruct (inherited_key _) eqn:K.
    + right. by eexists.
    + left. eexists. split; [reflexivity | by left].
Qed.

Lemma detectLanguage_by_extension_witness :
  detectLanguage ("src/Main" ++ String "." "PY") = detectLanguage "py"
  /\ detectLanguage "py" = Language "python"
  /\ detectLanguage "notes.constructor" = Inherited "constructor".
Proof.
  split; [| vm_compute; auto].
  rewrite (proj1 (detectLanguage_by_extension "src/Main" EmptyString "PY" "py"
                    eq_refl eq_refl eq_refl)).
  exact (proj1 (proj2 (detectLanguage_by_extension EmptyString EmptyString "py" "py"
                         eq_refl eq_refl eq_refl))).
Defined.

End CallersFacts.
